(** * The full-node staging store ([src/full_node/full_node_store.py])

    A shallow embedding of [FullNodeStore]: the ring of finished sub-slots,
    the deferred-message caches and the peak transition, together with the
    properties the specification states about them.

    Python objects are modelled as follows.
    - Attribute lookup on [self] first consults the instance and then the
      class.  The four [future_*_cache] dictionaries are assigned in the
      class body, so they live in [ClassAttrs] and are shared by every
      instance.  All other attributes are only annotated in the class body;
      they exist once a method has assigned them on the instance, hence the
      [option] fields of [Instance] ([None]: reading raises AttributeError).
    - A method is a computation in the monad [M]: it threads the class
      attributes and the instance, and ends by returning, by raising, or by
      running out of fuel inside one of the two [while] loops that walk the
      caller-supplied sub-block map.
    - Tuples are matched by arity at run time.  The ring is declared and built
      with 3-tuples, and three loops unpack 4-tuples, so both shapes (and the
      one-element list of line 304) are constructors of [ring_entry]. *)

From Stdlib Require Import ZArith Lia Bool List.
From stdpp Require Import base option list gmap.

Local Open Scope Z_scope.

(** ** Values exchanged with the rest of the node

    The classes below are declared outside the store's file; each record has
    the fields the store reads.  [bytes32] values are kept as integers. *)

Abbreviation bytes32 := Z (only parsing).

Record VDFInfo := mkVDFInfo {
  challenge_hash : bytes32;
  number_of_iterations : Z;
  output : Z
}.

Record VDFProof := mkVDFProof {
  witness_type : Z;
  witness : Z
}.

Record ChallengeChainSubSlot := mkCC {
  challenge_chain_end_of_slot_vdf : VDFInfo
}.

Record InfusedChallengeChainSubSlot := mkICC {
  infused_challenge_chain_end_of_slot_vdf : VDFInfo
}.

(* [rc_deficit] is the field [deficit] of the reward-chain sub-slot; the
   sub-block record owns the projection [deficit]. *)
Record RewardChainSubSlot := mkRC {
  end_of_slot_vdf : VDFInfo;
  rc_deficit : Z
}.

Record SubSlotProofs := mkProofs {
  challenge_chain_slot_proof : VDFProof;
  infused_challenge_chain_slot_proof : option VDFProof;
  reward_chain_slot_proof : VDFProof
}.

Record EndOfSubSlotBundle := mkEOS {
  challenge_chain : ChallengeChainSubSlot;
  infused_challenge_chain : option InfusedChallengeChainSubSlot;
  reward_chain : RewardChainSubSlot;
  proofs : SubSlotProofs
}.

Record SignagePoint := mkSP {
  cc_vdf : option VDFInfo;
  cc_proof : option VDFProof;
  rc_vdf : option VDFInfo;
  rc_proof : option VDFProof
}.

Record SubBlockRecord := mkSBR {
  prev_hash : bytes32;
  total_iters : Z;
  first_in_sub_slot : bool;
  deficit : Z;
  ips : Z;
  required_iters : Z;
  reward_infusion_new_challenge : bytes32;
  challenge_block_info_hash : bytes32;
  finished_challenge_slot_hashes : list bytes32;
  finished_infused_challenge_slot_hashes : list bytes32
}.

(* [timelord_protocol.NewInfusionPointVDF]; [ip_reward_chain_ip_vdf] is its
   field [reward_chain_ip_vdf], a name the reward-chain sub-block owns. *)
Record NewInfusionPointVDF := mkIP {
  ip_unfinished_reward_hash : bytes32;
  ip_reward_chain_ip_vdf : VDFInfo
}.

(* [src/types/full_block.py]: the store reads the reward-chain trunk only. *)
Record RewardChainSubBlock := mkRCSB {
  sub_block_height : Z;
  reward_chain_ip_vdf : VDFInfo
}.

Record FullBlock := mkFullBlock {
  reward_chain_sub_block : RewardChainSubBlock;
  transactions_filter : Z
}.

Record UnfinishedBlock := mkUnfinished {
  unfinished_reward_hash : bytes32;
  unfinished_height : Z
}.

Record ConsensusConstants := mkConstants {
  NUM_CHECKPOINTS_PER_SLOT : Z;
  MIN_SUB_BLOCKS_PER_CHALLENGE_BLOCK : Z;
  FIRST_CC_CHALLENGE : bytes32
}.

#[global] Instance VDFInfo_eq_dec : EqDecision VDFInfo.
Proof. solve_decision. Defined.
#[global] Instance VDFProof_eq_dec : EqDecision VDFProof.
Proof. solve_decision. Defined.
#[global] Instance ChallengeChainSubSlot_eq_dec : EqDecision ChallengeChainSubSlot.
Proof. solve_decision. Defined.
#[global] Instance InfusedChallengeChainSubSlot_eq_dec :
  EqDecision InfusedChallengeChainSubSlot.
Proof. solve_decision. Defined.
#[global] Instance RewardChainSubSlot_eq_dec : EqDecision RewardChainSubSlot.
Proof. solve_decision. Defined.
#[global] Instance SubSlotProofs_eq_dec : EqDecision SubSlotProofs.
Proof. solve_decision. Defined.
#[global] Instance EndOfSubSlotBundle_eq_dec : EqDecision EndOfSubSlotBundle.
Proof. solve_decision. Defined.

(** The dataclass [__eq__] used by [sub_slot == prev_sub_slot]. *)
Definition eos_eqb (a b : EndOfSubSlotBundle) : bool := bool_decide (a = b).

(** The sentinel [SignagePoint(None, None, None, None)]. *)
Definition empty_signage_point : SignagePoint := mkSP None None None None.

(** ** Collaborators

    Hashing, VDF verification and the iteration formulas are imported by the
    store from other modules; the store is generic in them. *)

Class Collaborators := {
  (* [challenge_chain.get_hash()], [infused_challenge_chain.get_hash()],
     [reward_chain.get_hash()] *)
  cc_get_hash : ChallengeChainSubSlot → bytes32;
  icc_get_hash : InfusedChallengeChainSubSlot → bytes32;
  rc_get_hash : RewardChainSubSlot → bytes32;
  (* the attribute [sub_slot.challenge_chain_hash] read on line 262 *)
  challenge_chain_hash : EndOfSubSlotBundle → bytes32;
  (* [proof.is_valid(constants, info)] *)
  is_valid : VDFProof → ConsensusConstants → VDFInfo → bool;
  (* [record.is_challenge_sub_block(constants)] *)
  is_challenge_sub_block : SubBlockRecord → ConsensusConstants → bool;
  (* [src.consensus.pot_iterations] *)
  calculate_sub_slot_iters : ConsensusConstants → Z → Z;
  calculate_ip_iters : ConsensusConstants → Z → Z → Z
}.

(** ** The store's state *)

(** One element of [finished_sub_slots], by run-time shape. *)
Inductive ring_entry :=
  (* [(eos, sps, total_iters)]: the declared shape, built on lines 225, 312, 313 *)
  | Tup3 (sub_slot : EndOfSubSlotBundle) (sps : gmap Z (list SignagePoint))
         (total_iters_at_end : Z)
  (* [(eos, sps_cc, sps_rc, total_iters)]: the shape unpacked on lines 241, 295, 342 *)
  | Tup4 (sub_slot : EndOfSubSlotBundle)
         (sps_cc sps_rc : list (option (VDFInfo * VDFProof)))
         (total_iters_at_end : Z)
  (* [[(eos, new_sps_cc, new_sps_rc, total_iters)]]: the list appended on line 304 *)
  | Boxed4 (sub_slot : EndOfSubSlotBundle)
           (sps_cc sps_rc : list (option (VDFInfo * VDFProof)))
           (total_iters_at_end : Z).

(** Attributes assigned in the class body (lines 39-48). *)
Record ClassAttrs := mkClassAttrs {
  future_eos_cache : gmap Z (list EndOfSubSlotBundle);
  future_sp_cache : gmap Z (list SignagePoint);
  future_ip_cache : gmap Z (list NewInfusionPointVDF);
  future_sb_cache : gmap Z (list FullBlock)
}.

(** Attributes that exist only once assigned on the instance. *)
Record Instance := mkInstance {
  constants : option ConsensusConstants;
  candidate_blocks : option (gmap Z UnfinishedBlock);
  seen_unfinished_blocks : option (gset Z);
  disconnected_blocks : option (gmap Z FullBlock);
  unfinished_blocks : option (gmap Z UnfinishedBlock);
  finished_sub_slots : option (list ring_entry)
}.

(** What [cls()] builds: an object with no attribute of its own. *)
Definition fresh_instance : Instance :=
  mkInstance None None None None None None.

Record Store := mkStore {
  cls : ClassAttrs;
  self : Instance
}.

(** ** Computations *)

Inductive exn :=
  | AttributeError | ValueError | KeyError | IndexError | AssertionError
  | ZeroDivisionError.

Inductive outcome (A : Type) :=
  | Return (a : A)
  | Raise (e : exn)
  | Diverge.
Arguments Return {A} a.
Arguments Raise {A} e.
Arguments Diverge {A}.

Definition M (A : Type) : Type := Store → Store * outcome A.

Definition ret {A} (a : A) : M A := λ st, (st, Return a).
Definition raise {A} (e : exn) : M A := λ st, (st, Raise e).
Definition diverge {A} : M A := λ st, (st, Diverge).
Definition bind {A B} (m : M A) (k : A → M B) : M B :=
  λ st, match m st with
        | (st', Return a) => k a st'
        | (st', Raise e) => (st', Raise e)
        | (st', Diverge) => (st', Diverge)
        end.

Notation "x <- m ;; k" := (bind m (λ x, k))
  (at level 100, m at next level, right associativity).
Notation "m ;;; k" := (bind m (λ _, k))
  (at level 100, right associativity).

(** *** Attribute access *)

Definition attr_constants : M ConsensusConstants :=
  λ st, match constants (self st) with
        | Some c => (st, Return c)
        | None => (st, Raise AttributeError)
        end.

Definition attr_finished_sub_slots : M (list ring_entry) :=
  λ st, match finished_sub_slots (self st) with
        | Some r => (st, Return r)
        | None => (st, Raise AttributeError)
        end.

Definition update_instance (f : Instance → Instance) : M unit :=
  λ st, (mkStore (cls st) (f (self st)), Return tt).

Definition update_class (f : ClassAttrs → ClassAttrs) : M unit :=
  λ st, (mkStore (f (cls st)) (self st), Return tt).

Definition set_constants (c : ConsensusConstants) : M unit :=
  update_instance (λ i, mkInstance (Some c) (candidate_blocks i)
    (seen_unfinished_blocks i) (disconnected_blocks i) (unfinished_blocks i)
    (finished_sub_slots i)).

Definition set_candidate_blocks (m : gmap Z UnfinishedBlock) : M unit :=
  update_instance (λ i, mkInstance (constants i) (Some m)
    (seen_unfinished_blocks i) (disconnected_blocks i) (unfinished_blocks i)
    (finished_sub_slots i)).

Definition set_seen_unfinished_blocks (s : gset Z) : M unit :=
  update_instance (λ i, mkInstance (constants i) (candidate_blocks i)
    (Some s) (disconnected_blocks i) (unfinished_blocks i)
    (finished_sub_slots i)).

Definition set_disconnected_blocks (m : gmap Z FullBlock) : M unit :=
  update_instance (λ i, mkInstance (constants i) (candidate_blocks i)
    (seen_unfinished_blocks i) (Some m) (unfinished_blocks i)
    (finished_sub_slots i)).

Definition set_unfinished_blocks (m : gmap Z UnfinishedBlock) : M unit :=
  update_instance (λ i, mkInstance (constants i) (candidate_blocks i)
    (seen_unfinished_blocks i) (disconnected_blocks i) (Some m)
    (finished_sub_slots i)).

Definition set_finished_sub_slots (r : list ring_entry) : M unit :=
  update_instance (λ i, mkInstance (constants i) (candidate_blocks i)
    (seen_unfinished_blocks i) (disconnected_blocks i) (unfinished_blocks i)
    (Some r)).

Definition set_future_eos_cache (m : gmap Z (list EndOfSubSlotBundle)) : M unit :=
  update_class (λ k, mkClassAttrs m (future_sp_cache k) (future_ip_cache k)
    (future_sb_cache k)).

Definition set_future_ip_cache (m : gmap Z (list NewInfusionPointVDF)) : M unit :=
  update_class (λ k, mkClassAttrs (future_eos_cache k) (future_sp_cache k) m
    (future_sb_cache k)).

Definition set_future_sb_cache (m : gmap Z (list FullBlock)) : M unit :=
  update_class (λ k, mkClassAttrs (future_eos_cache k) (future_sp_cache k)
    (future_ip_cache k) m).

(** *** Tuple unpacking *)

(* [a, b, c = e] *)
Definition unpack3 (e : ring_entry)
  : M (EndOfSubSlotBundle * gmap Z (list SignagePoint) * Z) :=
  match e with
  | Tup3 s sps t => ret (s, sps, t)
  | _ => raise ValueError
  end.

(* [a, b, c, d = e] *)
Definition unpack4 (e : ring_entry)
  : M (EndOfSubSlotBundle * list (option (VDFInfo * VDFProof))
       * list (option (VDFInfo * VDFProof)) * Z) :=
  match e with
  | Tup4 s scc src t => ret (s, scc, src, t)
  | _ => raise ValueError
  end.

(** *** Python primitives on lists and dictionaries *)

(* [a // b] *)
Definition py_floordiv (a b : Z) : M Z :=
  if b =? 0 then raise ZeroDivisionError else ret (a / b).

(* [xs[-1]] *)
Definition py_last {A} (xs : list A) : M A :=
  match last xs with
  | Some x => ret x
  | None => raise IndexError
  end.

(* [xs[:k]]: a negative bound counts from the end *)
Definition py_slice_to {A} (k : Z) (xs : list A) : list A :=
  if 0 <=? k then take (Z.to_nat k) xs
  else take (length xs - Z.to_nat (- k))%nat xs.

(* [xs[a:b]] for bounds that are not negative *)
Definition py_slice {A} (a b : Z) (xs : list A) : list A :=
  take (Z.to_nat b - Z.to_nat a)%nat (drop (Z.to_nat a) xs).

(* [[None] * n] *)
Definition py_nones {A} (n : Z) : list (option A) :=
  replicate (Z.to_nat n) None.

(* [xs[i] = v] for an index that is not negative *)
Definition py_setitem {A} (xs : list A) (i : Z) (v : A) : M (list A) :=
  if (0 <=? i) && (i <? Z.of_nat (length xs))
  then ret (<[Z.to_nat i := v]> xs)
  else raise IndexError.

(* [if k not in d: d[k] = []] followed by [d[k].append(v)] *)
Definition dict_append {A} (k : Z) (v : A) (d : gmap Z (list A))
  : gmap Z (list A) :=
  let d1 := match d !! k with
            | None => <[k := []]> d
            | Some _ => d
            end in
  match d1 !! k with
  | Some l => <[k := l ++ [v]]> d1
  | None => d1
  end.

(* [d.get(k, [])] *)
Definition dict_get_list {A} (k : Z) (d : gmap Z (list A)) : list A :=
  default [] (d !! k).

(** ** Construction (lines 50-59, 144-145) *)

Definition clear_slots : M unit :=
  _ <- attr_finished_sub_slots ;;
  set_finished_sub_slots [].

(** [create] runs its body on the object built by [cls()]; the class
    attributes are those of the running program. *)
Definition create_body (c : ConsensusConstants) : M unit :=
  set_constants c ;;;
  clear_slots ;;;
  set_unfinished_blocks ∅ ;;;
  set_candidate_blocks ∅ ;;;
  set_seen_unfinished_blocks ∅ ;;;
  set_disconnected_blocks ∅.

Definition create (c : ConsensusConstants) (k : ClassAttrs)
  : ClassAttrs * outcome Instance :=
  match create_body c (mkStore k fresh_instance) with
  | (st, Return _) => (cls st, Return (self st))
  | (st, Raise e) => (cls st, Raise e)
  | (st, Diverge) => (cls st, Diverge)
  end.

(** ** Future caches (lines 126-142) *)

Definition add_to_future_ip (infusion_point : NewInfusionPointVDF) : M unit :=
  let ch := challenge_hash (ip_reward_chain_ip_vdf infusion_point) in
  λ st, set_future_ip_cache
          (dict_append ch infusion_point (future_ip_cache (cls st))) st.

Definition get_future_ip (rc_challenge_hash : bytes32)
  : M (list NewInfusionPointVDF) :=
  λ st, (st, Return (dict_get_list rc_challenge_hash (future_ip_cache (cls st)))).

Definition add_to_future_sb (sub_block : FullBlock) : M unit :=
  let ch := challenge_hash
              (reward_chain_ip_vdf (reward_chain_sub_block sub_block)) in
  λ st, set_future_sb_cache
          (dict_append ch sub_block (future_sb_cache (cls st))) st.

Definition get_future_sb (rc_challenge_hash : bytes32) : M (list FullBlock) :=
  λ st, (st, Return (dict_get_list rc_challenge_hash (future_sb_cache (cls st)))).

Section Operations.
Context {env : Collaborators}.

(** ** The slot ring *)

(** [get_sub_slot] (lines 147-151). *)
Fixpoint get_sub_slot_from (challenge : bytes32) (index : Z)
    (entries : list ring_entry) : M (option (EndOfSubSlotBundle * Z * Z)) :=
  match entries with
  | [] => ret None
  | e :: rest =>
      t <- unpack3 e ;;
      let '(sub_slot, _, total) := t in
      if cc_get_hash (challenge_chain sub_slot) =? challenge
      then ret (Some (sub_slot, index, total))
      else get_sub_slot_from challenge (index + 1) rest
  end.

Definition get_sub_slot (challenge : bytes32)
  : M (option (EndOfSubSlotBundle * Z * Z)) :=
  ring <- attr_finished_sub_slots ;;
  get_sub_slot_from challenge 0 ring.

(** *** [new_finished_sub_slot] (lines 153-226) *)

(* [x.infused_challenge_chain.infused_challenge_chain_end_of_slot_vdf] *)
Definition icc_vdf_of (icc : option InfusedChallengeChainSubSlot) : M VDFInfo :=
  match icc with
  | Some i => ret (infused_challenge_chain_end_of_slot_vdf i)
  | None => raise AttributeError
  end.

(* lines 171-181; [true] when no check returned False *)
Definition slot_vdfs_valid (c : ConsensusConstants) (eos : EndOfSubSlotBundle)
  : M bool :=
  if negb (is_valid (challenge_chain_slot_proof (proofs eos)) c
             (challenge_chain_end_of_slot_vdf (challenge_chain eos)))
  then ret false
  else if negb (is_valid (reward_chain_slot_proof (proofs eos)) c
                  (end_of_slot_vdf (reward_chain eos)))
  then ret false
  else match infused_challenge_chain eos with
       | None => ret true
       | Some icc =>
           match infused_challenge_chain_slot_proof (proofs eos) with
           | None => raise AttributeError
           | Some p =>
               ret (is_valid p c (infused_challenge_chain_end_of_slot_vdf icc))
           end
       end.

(* lines 190-192 *)
Definition defer_eos (eos : EndOfSubSlotBundle) : M unit :=
  let rc_challenge := challenge_hash (end_of_slot_vdf (reward_chain eos)) in
  λ st, set_future_eos_cache
          (dict_append rc_challenge eos (future_eos_cache (cls st))) st.

(* lines 198-200 *)
Fixpoint walk_to_challenge_start (fuel : nat) (c : ConsensusConstants)
    (sub_blocks : gmap Z SubBlockRecord) (curr : SubBlockRecord)
  : M SubBlockRecord :=
  if first_in_sub_slot curr || is_challenge_sub_block curr c then ret curr
  else match fuel with
       | O => diverge
       | S fuel' =>
           match sub_blocks !! prev_hash curr with
           | None => raise KeyError
           | Some parent => walk_to_challenge_start fuel' c sub_blocks parent
           end
       end.

(* lines 197-211; [true] when no check returned False *)
Definition deficit_check (fuel : nat) (c : ConsensusConstants)
    (eos : EndOfSubSlotBundle) (sub_blocks : gmap Z SubBlockRecord)
    (peak : SubBlockRecord) : M bool :=
  if deficit peak <? MIN_SUB_BLOCKS_PER_CHALLENGE_BLOCK c then
    curr <- walk_to_challenge_start fuel c sub_blocks peak ;;
    icc_start_challenge_hash <-
      (if is_challenge_sub_block curr c
       then ret (challenge_block_info_hash curr)
       else py_last (finished_infused_challenge_slot_hashes curr)) ;;
    if deficit peak <? MIN_SUB_BLOCKS_PER_CHALLENGE_BLOCK c then
      v <- icc_vdf_of (infused_challenge_chain eos) ;;
      ret (challenge_hash v =? icc_start_challenge_hash)
    else ret true
  else ret true.

(* lines 186-211, the branch "peak is in this slot" *)
Definition peak_in_slot_checks (fuel : nat) (c : ConsensusConstants)
    (eos : EndOfSubSlotBundle) (sub_blocks : gmap Z SubBlockRecord)
    (peak : SubBlockRecord) (total : Z) : M bool :=
  let rc_challenge := challenge_hash (end_of_slot_vdf (reward_chain eos)) in
  if negb (reward_infusion_new_challenge peak =? rc_challenge) then
    defer_eos eos ;;; ret false
  else if negb (total_iters peak
                + number_of_iterations (end_of_slot_vdf (reward_chain eos))
                =? total)
  then ret false
  else deficit_check fuel c eos sub_blocks peak.

(* lines 213-223, the branch "empty slot after the peak" *)
Definition empty_slot_checks (c : ConsensusConstants)
    (eos last_slot : EndOfSubSlotBundle) : M bool :=
  if negb (challenge_hash (end_of_slot_vdf (reward_chain eos))
           =? rc_get_hash (reward_chain last_slot))
  then ret false
  else if rc_deficit (reward_chain last_slot)
          <? MIN_SUB_BLOCKS_PER_CHALLENGE_BLOCK c then
    v <- icc_vdf_of (infused_challenge_chain eos) ;;
    match infused_challenge_chain last_slot with
    | None => raise AttributeError
    | Some icc => ret (challenge_hash v =? icc_get_hash icc)
    end
  else ret true.

Definition new_finished_sub_slot (fuel : nat) (eos : EndOfSubSlotBundle)
    (sub_blocks : gmap Z SubBlockRecord) (peak : SubBlockRecord) : M bool :=
  ring <- attr_finished_sub_slots ;;
  match last ring with
  | None => ret false
  | Some e =>
      t <- unpack3 e ;;
      let '(last_slot, _, last_slot_iters) := t in
      if negb (challenge_hash
                 (challenge_chain_end_of_slot_vdf (challenge_chain eos))
               =? cc_get_hash (challenge_chain last_slot))
      then ret false
      else
        c <- attr_constants ;;
        valid <- slot_vdfs_valid c eos ;;
        if negb valid then ret false
        else
          let total := last_slot_iters
                       + number_of_iterations
                           (challenge_chain_end_of_slot_vdf (challenge_chain eos)) in
          ok <- (if total_iters peak >? last_slot_iters
                 then peak_in_slot_checks fuel c eos sub_blocks peak total
                 else empty_slot_checks c eos last_slot) ;;
          if negb ok then ret false
          else
            ring' <- attr_finished_sub_slots ;;
            set_finished_sub_slots (ring' ++ [Tup3 eos ∅ total]) ;;;
            ret true
  end.

(** *** [new_signage_point] (lines 228-246) *)

(* The loop of line 241 over the entries not yet visited; [visited] are the
   entries before them.  An item assignment updates the table held by the
   ring, so the ring is written back after each one. *)
Fixpoint new_signage_point_from (challenge : bytes32) (index : Z)
    (cc rc : VDFInfo * VDFProof) (visited entries : list ring_entry)
  : M bool :=
  match entries with
  | [] => ret false
  | e :: rest =>
      t <- unpack4 e ;;
      let '(sub_slot, sps_cc, sps_rc, total) := t in
      if cc_get_hash (challenge_chain sub_slot) =? challenge then
        sps_cc' <- py_setitem sps_cc index (Some cc) ;;
        set_finished_sub_slots
          (visited ++ Tup4 sub_slot sps_cc' sps_rc total :: rest) ;;;
        sps_rc' <- py_setitem sps_rc index (Some rc) ;;
        set_finished_sub_slots
          (visited ++ Tup4 sub_slot sps_cc' sps_rc' total :: rest) ;;;
        ret true
      else new_signage_point_from challenge index cc rc (visited ++ [e]) rest
  end.

Definition new_signage_point (challenge : bytes32) (index : Z)
    (vdf_info_cc : VDFInfo) (proof_cc : VDFProof)
    (vdf_info_rc : VDFInfo) (proof_rc : VDFProof) : M bool :=
  (* [assert 0 < index < self.constants.NUM_CHECKPOINTS_PER_SLOT] *)
  (if negb (0 <? index) then raise AssertionError
   else
     c <- attr_constants ;;
     if negb (index <? NUM_CHECKPOINTS_PER_SLOT c) then raise AssertionError
     else ret tt) ;;;
  ring <- attr_finished_sub_slots ;;
  new_signage_point_from challenge index
    (vdf_info_cc, proof_cc) (vdf_info_rc, proof_rc) [] ring.

(** *** [get_signage_point_by_index] (lines 258-271) *)

(* lines 267-270 *)
Fixpoint find_by_rc_infusion (last_rc_infusion : bytes32)
    (sps_at_index : list SignagePoint) : M (option SignagePoint) :=
  match sps_at_index with
  | [] => ret None
  | sp :: rest =>
      match rc_vdf sp with
      | None => raise AttributeError
      | Some v =>
          if challenge_hash v =? last_rc_infusion then ret (Some sp)
          else find_by_rc_infusion last_rc_infusion rest
      end
  end.

Fixpoint get_signage_point_by_index_from (challenge : bytes32) (index : Z)
    (last_rc_infusion : bytes32) (entries : list ring_entry)
  : M (option SignagePoint) :=
  match entries with
  | [] => ret None
  | e :: rest =>
      t <- unpack3 e ;;
      let '(sub_slot, sps, _) := t in
      if challenge_chain_hash sub_slot =? challenge then
        if index =? 0 then ret (Some empty_signage_point)
        else match sps !! index with
             | None => ret None
             | Some sps_at_index =>
                 find_by_rc_infusion last_rc_infusion sps_at_index
             end
      else get_signage_point_by_index_from challenge index last_rc_infusion rest
  end.

Definition get_signage_point_by_index (challenge : bytes32) (index : Z)
    (last_rc_infusion : bytes32) : M (option SignagePoint) :=
  ring <- attr_finished_sub_slots ;;
  get_signage_point_by_index_from challenge index last_rc_infusion ring.

(** *** [new_peak] (lines 273-318) *)

(* After line 305 [self.finished_sub_slots] and [new_finished_sub_slots] are
   one list object: from then on an append to the latter is seen in the
   store ([aliased]). *)
Definition sync_ring (aliased : bool) (new_finished_sub_slots : list ring_entry)
  : M unit :=
  if aliased then set_finished_sub_slots new_finished_sub_slots else ret tt.

(* The loop of lines 295-305 over the list object the ring was when the
   loop began.  Its target [total_iters] is the method's parameter of that
   name: each iteration rebinds it, and line 313 reads it after the loop, so
   the loop yields its final value. *)
Fixpoint new_peak_prune (c : ConsensusConstants)
    (peak_sub_slot : EndOfSubSlotBundle)
    (prev_sub_slot : option EndOfSubSlotBundle) (sps_to_keep : Z)
    (entries new_finished_sub_slots : list ring_entry) (aliased : bool)
    (total : Z) : M Z :=
  match entries with
  | [] => ret total
  | e :: rest =>
      t <- unpack4 e ;;
      let '(sub_slot, sps_cc, sps_rc, total') := t in
      let is_prev := match prev_sub_slot with
                     | Some p => eos_eqb sub_slot p
                     | None => false
                     end in
      let kept := if is_prev
                  then new_finished_sub_slots ++ [Tup4 sub_slot sps_cc sps_rc total']
                  else new_finished_sub_slots in
      sync_ring aliased kept ;;;
      if eos_eqb sub_slot peak_sub_slot then
        let padding := NUM_CHECKPOINTS_PER_SLOT c - sps_to_keep in
        let new_sps_cc := py_slice_to sps_to_keep sps_cc ++ py_nones padding in
        let new_sps_rc := py_slice_to sps_to_keep sps_rc ++ py_nones padding in
        let kept' := kept ++ [Boxed4 sub_slot new_sps_cc new_sps_rc total'] in
        set_finished_sub_slots kept' ;;;
        new_peak_prune c peak_sub_slot prev_sub_slot sps_to_keep rest kept' true
          total'
      else
        new_peak_prune c peak_sub_slot prev_sub_slot sps_to_keep rest kept
          aliased total'
  end.

(* lines 287-305; [uint64(...)] on line 291 is the integer itself *)
Definition new_peak_no_reorg (peak : SubBlockRecord)
    (peak_sub_slot : EndOfSubSlotBundle) (total : Z)
    (prev_sub_slot : option EndOfSubSlotBundle) : M Z :=
  c <- attr_constants ;;
  let sub_slot_iters := calculate_sub_slot_iters c (ips peak) in
  checkpoint_size <- py_floordiv sub_slot_iters (NUM_CHECKPOINTS_PER_SLOT c) ;;
  let ip_iters := calculate_ip_iters c (ips peak) (required_iters peak) in
  q <- py_floordiv ip_iters checkpoint_size ;;
  let sps_to_keep := q + 1 in
  ring <- attr_finished_sub_slots ;;
  new_peak_prune c peak_sub_slot prev_sub_slot sps_to_keep ring [] false total.

(* lines 309-313 *)
Definition new_peak_seed (peak_sub_slot : EndOfSubSlotBundle) (total : Z)
    (prev_sub_slot : option EndOfSubSlotBundle)
    (prev_sub_slot_total_iters : option Z) : M unit :=
  clear_slots ;;;
  (match prev_sub_slot with
   | Some p =>
       match prev_sub_slot_total_iters with
       | None => raise AssertionError
       | Some pt => set_finished_sub_slots [Tup3 p ∅ pt]
       end
   | None => ret tt
   end) ;;;
  ring <- attr_finished_sub_slots ;;
  set_finished_sub_slots (ring ++ [Tup3 peak_sub_slot ∅ total]).

(* lines 315-318.  The list iterated is the one cached under the peak's
   challenge; a deferral during the loop appends under another key (line 188
   guards it), so that list is not changed while the loop runs. *)
Fixpoint new_peak_replay (fuel : nat) (cached : list EndOfSubSlotBundle)
    (sub_blocks : gmap Z SubBlockRecord) (peak : SubBlockRecord)
  : M (option EndOfSubSlotBundle) :=
  match cached with
  | [] => ret None
  | eos :: rest =>
      added <- new_finished_sub_slot fuel eos sub_blocks peak ;;
      if added then ret (Some eos)
      else new_peak_replay fuel rest sub_blocks peak
  end.

Definition new_peak (fuel : nat) (peak : SubBlockRecord)
    (peak_sub_slot : EndOfSubSlotBundle) (total : Z)
    (prev_sub_slot : option EndOfSubSlotBundle)
    (prev_sub_slot_total_iters : option Z) (reorg : bool)
    (sub_blocks : gmap Z SubBlockRecord) : M (option EndOfSubSlotBundle) :=
  total' <- (if negb reorg
             then new_peak_no_reorg peak peak_sub_slot total prev_sub_slot
             else ret total) ;;
  new_peak_seed peak_sub_slot total' prev_sub_slot prev_sub_slot_total_iters ;;;
  (λ st, new_peak_replay fuel
           (dict_get_list (reward_infusion_new_challenge peak)
              (future_eos_cache (cls st)))
           sub_blocks peak st).

(** *** [get_finished_sub_slots] (lines 320-356) *)

(* lines 335-336 *)
Fixpoint walk_to_first_in_sub_slot (fuel : nat)
    (sub_block_records : gmap Z SubBlockRecord) (curr : SubBlockRecord)
  : M SubBlockRecord :=
  if first_in_sub_slot curr then ret curr
  else match fuel with
       | O => diverge
       | S fuel' =>
           match sub_block_records !! prev_hash curr with
           | None => raise KeyError
           | Some parent =>
               walk_to_first_in_sub_slot fuel' sub_block_records parent
           end
       end.

(* lines 342-346 *)
Fixpoint find_indices (pos_challenge_hash final_sub_slot_in_chain : bytes32)
    (index : Z) (pos_index final_index : option Z) (entries : list ring_entry)
  : M (option Z * option Z) :=
  match entries with
  | [] => ret (pos_index, final_index)
  | e :: rest =>
      t <- unpack4 e ;;
      let '(sub_slot, _, _, _) := t in
      let h := cc_get_hash (challenge_chain sub_slot) in
      let pos_index' := if h =? pos_challenge_hash then Some index
                        else pos_index in
      let final_index' := if h =? final_sub_slot_in_chain then Some index
                          else final_index in
      find_indices pos_challenge_hash final_sub_slot_in_chain (index + 1)
        pos_index' final_index' rest
  end.

(* the comprehension of line 356 *)
Fixpoint sub_slots_of (entries : list ring_entry) : M (list EndOfSubSlotBundle) :=
  match entries with
  | [] => ret []
  | e :: rest =>
      t <- unpack4 e ;;
      let '(sub_slot, _, _, _) := t in
      tl <- sub_slots_of rest ;;
      ret (sub_slot :: tl)
  end.

Definition get_finished_sub_slots (fuel : nat) (prev_sb : option SubBlockRecord)
    (sub_block_records : gmap Z SubBlockRecord) (pos_challenge_hash : bytes32)
    (extra_sub_slot : bool) : M (list EndOfSubSlotBundle) :=
  final_sub_slot_in_chain <-
    (match prev_sb with
     | Some sb =>
         curr <- walk_to_first_in_sub_slot fuel sub_block_records sb ;;
         py_last (finished_challenge_slot_hashes curr)
     | None =>
         c <- attr_constants ;;
         ret (FIRST_CC_CHALLENGE c)
     end) ;;
  ring <- attr_finished_sub_slots ;;
  found <- find_indices pos_challenge_hash final_sub_slot_in_chain 0
             None None ring ;;
  match found with
  | (Some pos_index, Some final_index) =>
      let new_final_index := if extra_sub_slot then pos_index + 1
                             else pos_index in
      ring' <- attr_finished_sub_slots ;;
      sub_slots_of (py_slice (final_index + 1) (new_final_index + 1) ring')
  | _ => raise ValueError
  end.

End Operations.

(** ** Several stores in one program

    Two objects built by [cls()] in the same interpreter: each has its own
    instance attributes, and both resolve the class attributes to the same
    dictionaries. *)

Record World := mkWorld {
  shared : ClassAttrs;
  store_A : Instance;
  store_B : Instance
}.

Definition view_A (w : World) : Store := mkStore (shared w) (store_A w).
Definition view_B (w : World) : Store := mkStore (shared w) (store_B w).

(* a method call on the first object *)
Definition on_A {T} (m : M T) (w : World) : World * outcome T :=
  let '(st, o) := m (view_A w) in
  (mkWorld (cls st) (self st) (store_B w), o).

(* a method call on the second object *)
Definition on_B {T} (m : M T) (w : World) : World * outcome T :=
  let '(st, o) := m (view_B w) in
  (mkWorld (cls st) (store_A w) (self st), o).

(** ** Vocabulary of the properties *)

(** A computation that leaves the state alone. *)
Definition stateless {A} (m : M A) : Prop := ∀ st, (m st).1 = st.

Create HintDb stateless.

(** A computation that reads nothing of the store but the instance: on two
    stores with the same instance it has the same outcome and leaves the
    same instance. *)
Definition instance_only {A} (m : M A) : Prop :=
  ∀ st1 st2, self st1 = self st2 →
             (m st1).2 = (m st2).2 ∧ self (m st1).1 = self (m st2).1.

Create HintDb instance_only.



Create HintDb keeps_class.

Definition with_ring (r : list ring_entry) (st : Store) : Store :=
  (set_finished_sub_slots r st).1.

Definition with_eos_cache (m : gmap Z (list EndOfSubSlotBundle)) (st : Store)
  : Store :=
  (set_future_eos_cache m st).1.

Definition entry_sub_slot (e : ring_entry) : EndOfSubSlotBundle :=
  match e with
  | Tup3 s _ _ | Tup4 s _ _ _ | Boxed4 s _ _ _ => s
  end.

Definition entry_total (e : ring_entry) : Z :=
  match e with
  | Tup3 _ _ t | Tup4 _ _ _ t | Boxed4 _ _ _ t => t
  end.

(** The shape the annotation of line 33 gives to a ring element. *)
Definition declared_shape (e : ring_entry) : Prop :=
  match e with
  | Tup3 _ _ _ => True
  | _ => False
  end.

(** A ring element as lines 225, 312 and 313 build it: the declared shape
    with the empty dictionary as its signage-point table. *)
Definition fresh_shape (e : ring_entry) : Prop :=
  match e with
  | Tup3 _ sps _ => sps = ∅
  | _ => False
  end.

(* [cc_vdf_info eos] is [eos.challenge_chain.challenge_chain_end_of_slot_vdf] *)
Definition cc_vdf_info (eos : EndOfSubSlotBundle) : VDFInfo :=
  challenge_chain_end_of_slot_vdf (challenge_chain eos).

Definition rc_vdf_info (eos : EndOfSubSlotBundle) : VDFInfo :=
  end_of_slot_vdf (reward_chain eos).

Section Vocabulary.
Context {env : Collaborators}.

(** Invariants 1-3 of the data model on one adjacent pair of the ring. *)
Definition link_ok (a b : ring_entry) : Prop :=
  entry_total a < entry_total b
  ∧ challenge_hash (cc_vdf_info (entry_sub_slot b))
    = cc_get_hash (challenge_chain (entry_sub_slot a))
  ∧ entry_total b
    = entry_total a + number_of_iterations (cc_vdf_info (entry_sub_slot b)).

Fixpoint ring_chained (r : list ring_entry) : Prop :=
  match r with
  | a :: (b :: _) as tl => link_ok a b ∧ ring_chained tl
  | _ => True
  end.

(** The seeding the specification calls consistent: the two sub-slots chain
    and the previous one ends first. *)
Definition seed_as_claimed (peak_sub_slot : EndOfSubSlotBundle) (total : Z)
    (prev_sub_slot : option EndOfSubSlotBundle)
    (prev_sub_slot_total_iters : option Z) : Prop :=
  match prev_sub_slot, prev_sub_slot_total_iters with
  | Some p, Some pt =>
      challenge_hash (cc_vdf_info peak_sub_slot)
      = cc_get_hash (challenge_chain p)
      ∧ pt < total
  | _, _ => True
  end.

(** The seeding under which the ring invariants hold: moreover the peak's
    sub-slot ends its own iteration count after the previous one. *)
Definition seed_consistent (peak_sub_slot : EndOfSubSlotBundle) (total : Z)
    (prev_sub_slot : option EndOfSubSlotBundle)
    (prev_sub_slot_total_iters : option Z) : Prop :=
  seed_as_claimed peak_sub_slot total prev_sub_slot prev_sub_slot_total_iters
  ∧ match prev_sub_slot, prev_sub_slot_total_iters with
    | Some p, Some pt =>
        total = pt + number_of_iterations (cc_vdf_info peak_sub_slot)
    | _, _ => True
    end.

(** The ring exists, holds elements of the declared shape, and every
    adjacent pair is linked. *)
Definition ring_inv (st : Store) : Prop :=
  ∃ ring,
    finished_sub_slots (self st) = Some ring
    ∧ Forall declared_shape ring
    ∧ ring_chained ring.

(** The ring exists and every element carries the empty table. *)
Definition ring_fresh (st : Store) : Prop :=
  ∃ ring, finished_sub_slots (self st) = Some ring ∧ Forall fresh_shape ring.

(** What one call of [new_finished_sub_slot] can do to the store: nothing
    (every outcome but acceptance), a deferral into [future_eos_cache], or
    one element appended behind a last element it chains on. *)
Inductive nfss_effect (eos : EndOfSubSlotBundle) (peak : SubBlockRecord)
    (st : Store) : Store → outcome bool → Prop :=
  | nfss_untouched o :
      o ≠ Return true → nfss_effect eos peak st st o
  | nfss_deferred :
      reward_infusion_new_challenge peak ≠ challenge_hash (rc_vdf_info eos) →
      nfss_effect eos peak st
        (with_eos_cache
           (dict_append (challenge_hash (rc_vdf_info eos)) eos
              (future_eos_cache (cls st))) st)
        (Return false)
  | nfss_appended ring0 last_slot sps last_iters c :
      finished_sub_slots (self st)
      = Some (ring0 ++ [Tup3 last_slot sps last_iters]) →
      constants (self st) = Some c →
      challenge_hash (cc_vdf_info eos)
      = cc_get_hash (challenge_chain last_slot) →
      is_valid (challenge_chain_slot_proof (proofs eos)) c (cc_vdf_info eos)
      = true →
      nfss_effect eos peak st
        (with_ring
           ((ring0 ++ [Tup3 last_slot sps last_iters])
            ++ [Tup3 eos ∅
                  (last_iters + number_of_iterations (cc_vdf_info eos))]) st)
        (Return true).

(** The methods of lines 61-124 read and write the four block tables and
    nothing else; whatever one of them does to the store is among the
    changes [table_method] can make. *)
Definition table_method (candidate : option (gmap Z UnfinishedBlock))
    (seen : option (gset Z)) (disconnected : option (gmap Z FullBlock))
    (unfinished : option (gmap Z UnfinishedBlock)) : M unit :=
  update_instance (λ i, mkInstance (constants i) candidate seen disconnected
                          unfinished (finished_sub_slots i)).

(** The calls a client can make on a store.  Results are dropped: only the
    state they leave matters here. *)
Inductive call :=
  | CallNewFinishedSubSlot (fuel : nat) (eos : EndOfSubSlotBundle)
      (sub_blocks : gmap Z SubBlockRecord) (peak : SubBlockRecord)
  | CallNewSignagePoint (challenge index : Z) (vdf_info_cc : VDFInfo)
      (proof_cc : VDFProof) (vdf_info_rc : VDFInfo) (proof_rc : VDFProof)
  | CallNewPeak (fuel : nat) (peak : SubBlockRecord)
      (peak_sub_slot : EndOfSubSlotBundle) (total : Z)
      (prev_sub_slot : option EndOfSubSlotBundle)
      (prev_sub_slot_total_iters : option Z) (reorg : bool)
      (sub_blocks : gmap Z SubBlockRecord)
  | CallClearSlots
  | CallAddToFutureIp (infusion_point : NewInfusionPointVDF)
  | CallAddToFutureSb (sub_block : FullBlock)
  | CallGetFutureIp (rc_challenge_hash : Z)
  | CallGetFutureSb (rc_challenge_hash : Z)
  | CallGetSubSlot (challenge : Z)
  | CallGetSignagePointByIndex (challenge index last_rc_infusion : Z)
  | CallGetFinishedSubSlots (fuel : nat) (prev_sb : option SubBlockRecord)
      (sub_block_records : gmap Z SubBlockRecord) (pos_challenge_hash : Z)
      (extra_sub_slot : bool)
  | CallTableMethod (candidate : option (gmap Z UnfinishedBlock))
      (seen : option (gset Z)) (disconnected : option (gmap Z FullBlock))
      (unfinished : option (gmap Z UnfinishedBlock)).

Definition run (c : call) (st : Store) : Store :=
  match c with
  | CallNewFinishedSubSlot fuel eos sub_blocks peak =>
      (new_finished_sub_slot fuel eos sub_blocks peak st).1
  | CallNewSignagePoint challenge index vcc pcc vrc prc =>
      (new_signage_point challenge index vcc pcc vrc prc st).1
  | CallNewPeak fuel peak peak_sub_slot total prev prev_total reorg sub_blocks =>
      (new_peak fuel peak peak_sub_slot total prev prev_total reorg sub_blocks st).1
  | CallClearSlots => (clear_slots st).1
  | CallAddToFutureIp ip => (add_to_future_ip ip st).1
  | CallAddToFutureSb sb => (add_to_future_sb sb st).1
  | CallGetFutureIp h => (get_future_ip h st).1
  | CallGetFutureSb h => (get_future_sb h st).1
  | CallGetSubSlot h => (get_sub_slot h st).1
  | CallGetSignagePointByIndex h i l => (get_signage_point_by_index h i l st).1
  | CallGetFinishedSubSlots fuel prev_sb recs h extra =>
      (get_finished_sub_slots fuel prev_sb recs h extra st).1
  | CallTableMethod candidate seen disconnected unfinished =>
      (table_method candidate seen disconnected unfinished st).1
  end.

(** Every later peak transition is seeded consistently as well. *)
Definition admissible (c : call) : Prop :=
  match c with
  | CallNewPeak _ _ peak_sub_slot total prev prev_total _ _ =>
      seed_consistent peak_sub_slot total prev prev_total
  | _ => True
  end.

(** States reached from a consistently seeded peak.  The seeding call is made
    on a store whose ring holds elements of the declared shape and returns;
    afterwards any call may follow, whatever its outcome. *)
Inductive reachable : Store → Prop :=
  | reachable_seed st0 ring0 fuel peak peak_sub_slot total prev prev_total
        reorg sub_blocks result :
      finished_sub_slots (self st0) = Some ring0 →
      Forall declared_shape ring0 →
      seed_consistent peak_sub_slot total prev prev_total →
      (new_peak fuel peak peak_sub_slot total prev prev_total reorg sub_blocks
         st0).2 = Return result →
      reachable
        (new_peak fuel peak peak_sub_slot total prev prev_total reorg sub_blocks
           st0).1
  | reachable_call st c :
      reachable st → admissible c → reachable (run c st).

End Vocabulary.

(** ** The block tables (lines 61-124)

    Modelled: the methods whose result does not depend on the order in which
    a dictionary is iterated.  [FullBlock.header_hash] hashes the foliage,
    whose class is declared elsewhere; [FullBlock.height] is the height of
    the reward-chain trunk ([src/types/full_block.py], lines 50-60).  The
    field [unfinished_reward_hash] of an unfinished block stands for
    [reward_chain_sub_block.get_hash()]. *)

Class BlockHashes := {
  header_hash : FullBlock → bytes32
}.

Definition height (block : FullBlock) : Z :=
  sub_block_height (reward_chain_sub_block block).

Definition attr_disconnected_blocks : M (gmap Z FullBlock) :=
  λ st, match disconnected_blocks (self st) with
        | Some d => (st, Return d)
        | None => (st, Raise AttributeError)
        end.

Definition attr_candidate_blocks : M (gmap Z UnfinishedBlock) :=
  λ st, match candidate_blocks (self st) with
        | Some d => (st, Return d)
        | None => (st, Raise AttributeError)
        end.

Definition attr_unfinished_blocks : M (gmap Z UnfinishedBlock) :=
  λ st, match unfinished_blocks (self st) with
        | Some d => (st, Return d)
        | None => (st, Raise AttributeError)
        end.

Definition attr_seen_unfinished_blocks : M (gset Z) :=
  λ st, match seen_unfinished_blocks (self st) with
        | Some s => (st, Return s)
        | None => (st, Raise AttributeError)
        end.

Section BlockTables.
Context {hashes : BlockHashes}.

(* lines 61-62 *)
Definition add_disconnected_block (block : FullBlock) : M unit :=
  d <- attr_disconnected_blocks ;;
  set_disconnected_blocks (<[header_hash block := block]> d).

(* lines 70-71 *)
Definition get_disconnected_block (hash : bytes32) : M (option FullBlock) :=
  d <- attr_disconnected_blocks ;;
  ret (d !! hash).

(* lines 73-76, over the snapshot [list(self.disconnected_blocks.keys())].
   A step reads and deletes its own key only, so the order in which the
   snapshot is visited is not observable. *)
Fixpoint clear_disconnected_blocks_below_from (below : Z) (keys : list Z)
  : M unit :=
  match keys with
  | [] => ret tt
  | key :: rest =>
      d <- attr_disconnected_blocks ;;
      match d !! key with
      | None => raise KeyError
      | Some block =>
          (if height block <? below
           then set_disconnected_blocks (delete key d)
           else ret tt) ;;;
          clear_disconnected_blocks_below_from below rest
      end
  end.

Definition clear_disconnected_blocks_below (below : Z) : M unit :=
  d <- attr_disconnected_blocks ;;
  clear_disconnected_blocks_below_from below (map_to_list d).*1.

End BlockTables.

(* lines 78-83 *)
Definition add_candidate_block (quality_string : bytes32)
    (unfinished_block : UnfinishedBlock) : M unit :=
  d <- attr_candidate_blocks ;;
  set_candidate_blocks (<[quality_string := unfinished_block]> d).

(* lines 85-86 *)
Definition get_candidate_block (quality_string : bytes32)
  : M (option UnfinishedBlock) :=
  d <- attr_candidate_blocks ;;
  ret (d !! quality_string).

(* lines 99-100 *)
Definition add_unfinished_block (unfinished_block : UnfinishedBlock) : M unit :=
  d <- attr_unfinished_blocks ;;
  set_unfinished_blocks
    (<[unfinished_reward_hash unfinished_block := unfinished_block]> d).

(* lines 102-103 *)
Definition get_unfinished_block (reward_hash : bytes32)
  : M (option UnfinishedBlock) :=
  d <- attr_unfinished_blocks ;;
  ret (d !! reward_hash).

(* lines 105-109 *)
Definition seen_unfinished_block (temp_header_hash : bytes32) : M bool :=
  s <- attr_seen_unfinished_blocks ;;
  if bool_decide (temp_header_hash ∈ s) then ret true
  else
    s' <- attr_seen_unfinished_blocks ;;
    set_seen_unfinished_blocks (s' ∪ {[temp_header_hash]}) ;;;
    ret false.

(* lines 111-112 *)
Definition clear_seen_unfinished_blocks : M unit :=
  _ <- attr_seen_unfinished_blocks ;;
  set_seen_unfinished_blocks ∅.

(* lines 114-115 *)
Definition get_unfinished_blocks : M (gmap Z UnfinishedBlock) :=
  attr_unfinished_blocks.

(* lines 122-124 *)
Definition remove_unfinished_block (partial_reward_hash : bytes32) : M unit :=
  d <- attr_unfinished_blocks ;;
  if bool_decide (is_Some (d !! partial_reward_hash))
  then
    d' <- attr_unfinished_blocks ;;
    set_unfinished_blocks (delete partial_reward_hash d')
  else ret tt.

(** A computation whose effect on the store is one [table_method] can make:
    it leaves the class attributes, the constants and the ring alone. *)
Definition tables_only {A} (m : M A) : Prop :=
  ∀ st, ∃ candidate seen disconnected unfinished,
    (m st).1 = (table_method candidate seen disconnected unfinished st).1.

(** The loop of lines 335-336 in big steps: from [curr] it ends with outcome
    [o] after reading the map at most [n] times. *)
Inductive walk_ends (sub_block_records : gmap Z SubBlockRecord)
  : SubBlockRecord → nat → outcome SubBlockRecord → Prop :=
  | walk_ends_here curr :
      first_in_sub_slot curr = true →
      walk_ends sub_block_records curr 0 (Return curr)
  | walk_ends_missing curr :
      first_in_sub_slot curr = false →
      sub_block_records !! prev_hash curr = None →
      walk_ends sub_block_records curr 1 (Raise KeyError)
  | walk_ends_step curr parent n o :
      first_in_sub_slot curr = false →
      sub_block_records !! prev_hash curr = Some parent →
      walk_ends sub_block_records parent n o →
      walk_ends sub_block_records curr (S n) o.

Section Seeded.
Context {env : Collaborators}.

(** States that follow a [new_peak] call that returned, on any store and
    with any arguments; afterwards any call may follow, whatever its
    outcome. *)
Inductive seeded : Store → Prop :=
  | seeded_new_peak st0 fuel peak peak_sub_slot total prev prev_total reorg
        sub_blocks result :
      (new_peak fuel peak peak_sub_slot total prev prev_total reorg sub_blocks
         st0).2 = Return result →
      seeded
        (new_peak fuel peak peak_sub_slot total prev prev_total reorg sub_blocks
           st0).1
  | seeded_call st c : seeded st → seeded (run c st).

End Seeded.

(** ** Test doubles and sample data *)

(** Collaborators for the examples: a hash reads the VDF output, a proof is
    valid when it names that output and the VDF ran at least one iteration,
    and the iteration formulas are linear. *)
Definition sample_env : Collaborators := {|
  cc_get_hash c := 1000 + output (challenge_chain_end_of_slot_vdf c);
  icc_get_hash c := 2000 + output (infused_challenge_chain_end_of_slot_vdf c);
  rc_get_hash c := 3000 + output (end_of_slot_vdf c);
  challenge_chain_hash e :=
    1000 + output (challenge_chain_end_of_slot_vdf (challenge_chain e));
  is_valid p _ v := (0 <? number_of_iterations v) && (witness p =? output v);
  is_challenge_sub_block r c :=
    deficit r =? MIN_SUB_BLOCKS_PER_CHALLENGE_BLOCK c - 1;
  calculate_sub_slot_iters _ ips := ips * 10;
  calculate_ip_iters _ ips required_iters := required_iters `mod` (ips * 10)
|}.

(** The same with a verifier that accepts every proof. *)
Definition lax_env : Collaborators := {|
  cc_get_hash := @cc_get_hash sample_env;
  icc_get_hash := @icc_get_hash sample_env;
  rc_get_hash := @rc_get_hash sample_env;
  challenge_chain_hash := @challenge_chain_hash sample_env;
  is_valid _ _ _ := true;
  is_challenge_sub_block := @is_challenge_sub_block sample_env;
  calculate_sub_slot_iters := @calculate_sub_slot_iters sample_env;
  calculate_ip_iters := @calculate_ip_iters sample_env
|}.

Definition sample_constants : ConsensusConstants :=
  mkConstants 32 5 999.

(* A bundle without infused challenge chain whose proofs [sample_env]
   accepts. *)
Definition sample_eos (cc_challenge cc_iters cc_out rc_challenge rc_iters
    rc_out : Z) : EndOfSubSlotBundle :=
  mkEOS (mkCC (mkVDFInfo cc_challenge cc_iters cc_out)) None
    (mkRC (mkVDFInfo rc_challenge rc_iters rc_out) 5)
    (mkProofs (mkVDFProof 0 cc_out) None (mkVDFProof 0 rc_out)).

(* Five sub-slots that chain: slot [k] has challenge-chain hash [1000 + k]. *)
Definition slot0 : EndOfSubSlotBundle := sample_eos 999 100 0 2999 100 0.
Definition slot1 : EndOfSubSlotBundle := sample_eos 1000 100 1 3000 100 1.
Definition slot2 : EndOfSubSlotBundle := sample_eos 1001 100 2 3001 100 2.
Definition slot3 : EndOfSubSlotBundle := sample_eos 1002 100 3 3002 100 3.
Definition slot4 : EndOfSubSlotBundle := sample_eos 1003 100 4 3003 100 4.

(* A peak at [total] iterations whose infusion produced [challenge]. *)
Definition sample_peak (total challenge : Z) : SubBlockRecord :=
  mkSBR 0 total true 5 320 450 challenge 0 [1001] [].

Definition no_caches : ClassAttrs := mkClassAttrs ∅ ∅ ∅ ∅.

(* A store with constants and the given ring. *)
Definition store_with (k : ClassAttrs) (ring : list ring_entry) : Store :=
  mkStore k (mkInstance (Some sample_constants) (Some ∅) (Some ∅) (Some ∅)
               (Some ∅) (Some ring)).

(* A signage point and its two table cells. *)
Definition sample_cell (i : Z) : option (VDFInfo * VDFProof) :=
  Some (mkVDFInfo 1001 (100 * i) i, mkVDFProof 0 i).

Definition sample_sp (i : Z) : SignagePoint :=
  mkSP (Some (mkVDFInfo 1001 (100 * i) i)) (Some (mkVDFProof 0 i))
       (Some (mkVDFInfo 3001 (100 * i) i)) (Some (mkVDFProof 0 i)).

(* A table of 32 cells: index 0 empty, indices 1..31 populated. *)
Definition full_table : list (option (VDFInfo * VDFProof)) :=
  None :: map (λ i, sample_cell (Z.of_nat i)) (seq 1 31).

(* The same content in the declared dictionary form. *)
Definition full_dict : gmap Z (list SignagePoint) :=
  list_to_map (map (λ i, (Z.of_nat i, [sample_sp (Z.of_nat i)])) (seq 1 31)).

(* Scenario S6: slots 0..4 in the declared shape. *)
Definition ring_0_to_4 : list ring_entry :=
  [Tup3 slot0 ∅ 100; Tup3 slot1 ∅ 200; Tup3 slot2 ∅ 300; Tup3 slot3 ∅ 400;
   Tup3 slot4 ∅ 500].

(* Scenario S6 on 4-tuples. *)
Definition ring_0_to_4_four_tuples : list ring_entry :=
  [Tup4 slot0 [] [] 100; Tup4 slot1 [] [] 200; Tup4 slot2 [] [] 300;
   Tup4 slot3 [] [] 400; Tup4 slot4 [] [] 500].

(* The table [full_table] cut to its first five cells. *)
Definition truncated_table : list (option (VDFInfo * VDFProof)) :=
  [None; sample_cell 1; sample_cell 2; sample_cell 3; sample_cell 4]
  ++ replicate 27 None.

Definition sample_ip : NewInfusionPointVDF := mkIP 1 (mkVDFInfo 3001 10 1).

Definition sample_block : FullBlock :=
  mkFullBlock (mkRCSB 7 (mkVDFInfo 3001 10 1)) 0.

(* Two objects: the first has constants and a ring, the second is new. *)
Definition two_stores : World :=
  mkWorld no_caches (self (store_with no_caches [Tup3 slot2 ∅ 300]))
    fresh_instance.

(* A bundle that chains on [slot2] and whose slot holds a peak at 350
   iterations with challenge 3001. *)
Definition cached_eos : EndOfSubSlotBundle := sample_eos 1002 100 3 3001 50 3.


(* A bundle of zero iterations that chains on [slot2]. *)
Definition zero_eos : EndOfSubSlotBundle := sample_eos 1002 0 3 3002 0 3.

(* Scenario S1: a bundle of 150 iterations that chains on [slot3]. *)
Definition eos_150 : EndOfSubSlotBundle := sample_eos 1003 150 4 3003 150 4.

(* A header hash for the examples: it reads the transactions filter. *)
Definition sample_hashes : BlockHashes :=
  {| header_hash b := 5000 + transactions_filter b |}.

(* A bundle that chains on [slot2] and whose challenge-chain proof
   [sample_env] refuses. *)
Definition forged_eos : EndOfSubSlotBundle :=
  mkEOS (mkCC (mkVDFInfo 1002 100 3)) None (mkRC (mkVDFInfo 3002 100 3) 5)
    (mkProofs (mkVDFProof 0 99) None (mkVDFProof 0 3)).

(* A bundle that chains on [slot2] and awaits the infusion 3777. *)
Definition deferred_eos : EndOfSubSlotBundle :=
  sample_eos 1002 100 3 3777 100 3.

(* A peak whose sub-slot (10 iterations) is shorter than 32 checkpoints. *)
Definition short_slot_peak : SubBlockRecord :=
  mkSBR 0 350 true 5 1 450 3001 0 [1001] [].

(* A record one step after [sample_peak 250 3001] and the map that links
   them. *)
Definition child_record : SubBlockRecord :=
  mkSBR 77 260 false 5 320 450 3001 0 [] [].

Definition sample_records : gmap Z SubBlockRecord :=
  {[ 77 := sample_peak 250 3001 ]}.

(* A record that the map gives as its own parent. *)
Definition looping_record : SubBlockRecord :=
  mkSBR 88 260 false 5 320 450 3001 0 [] [].

Definition looping_records : gmap Z SubBlockRecord :=
  {[ 88 := looping_record ]}.

(* A block of height 3 (header hash 5001); [sample_block] has height 7
   (header hash 5000). *)
Definition low_block : FullBlock :=
  mkFullBlock (mkRCSB 3 (mkVDFInfo 3001 10 1)) 1.

Definition sample_unfinished : UnfinishedBlock := mkUnfinished 6001 9.

(* A store with constants, an empty ring and the given block tables. *)
Definition store_with_tables (candidate : gmap Z UnfinishedBlock)
    (seen : gset Z) (disconnected : gmap Z FullBlock)
    (unfinished : gmap Z UnfinishedBlock) : Store :=
  mkStore no_caches
    (mkInstance (Some sample_constants) (Some candidate) (Some seen)
       (Some disconnected) (Some unfinished) (Some [])).

(* The hashes seen so far. *)
Definition seen_before : gset Z := {[ 8 ]}.

(* A store with constants and no ring. *)
Definition store_without_ring : Store :=
  mkStore no_caches
    (mkInstance (Some sample_constants) (Some ∅) (Some ∅) (Some ∅) (Some ∅)
       None).

(* The last slot of this ring has deficit 3, below the threshold 5. *)
Definition deficit_slot : EndOfSubSlotBundle :=
  mkEOS (mkCC (mkVDFInfo 1001 100 2)) None (mkRC (mkVDFInfo 3001 100 2) 3)
    (mkProofs (mkVDFProof 0 2) None (mkVDFProof 0 2)).

(* A peak at 350 iterations with deficit 4: a challenge sub-block for
   [sample_env], with challenge block info hash 7000. *)
Definition challenge_peak : SubBlockRecord :=
  mkSBR 0 350 false 4 320 450 3001 7000 [] [].

(* [cached_eos] with an infused challenge chain that starts from [start]. *)
Definition infused_eos (start : Z) : EndOfSubSlotBundle :=
  mkEOS (mkCC (mkVDFInfo 1002 100 3)) (Some (mkICC (mkVDFInfo start 40 5)))
    (mkRC (mkVDFInfo 3001 50 3) 5)
    (mkProofs (mkVDFProof 0 3) (Some (mkVDFProof 0 5)) (mkVDFProof 0 3)).



(** * Properties *)

(** ** Computations that leave the state alone *)

Lemma stateless_ret {A} (a : A) : stateless (ret a).
Proof. intros st. reflexivity. Qed.

Lemma stateless_raise {A} (e : exn) : stateless (@raise A e).
Proof. intros st. reflexivity. Qed.

Lemma stateless_diverge {A} : stateless (@diverge A).
Proof. intros st. reflexivity. Qed.

Lemma stateless_bind {A B} (m : M A) (k : A → M B) :
  stateless m → (∀ a, stateless (k a)) → stateless (bind m k).
Proof.
  intros Hm Hk st. unfold bind. specialize (Hm st).
  destruct (m st) as [st' [a | e |]]; simpl in Hm; subst; auto.
  apply Hk.
Qed.

Lemma stateless_attr_constants : stateless attr_constants.
Proof. intros st. unfold attr_constants. destruct (constants (self st)); reflexivity. Qed.

Lemma stateless_attr_finished_sub_slots : stateless attr_finished_sub_slots.
Proof.
  intros st. unfold attr_finished_sub_slots.
  destruct (finished_sub_slots (self st)); reflexivity.
Qed.

Lemma stateless_unpack3 e : stateless (unpack3 e).
Proof. destruct e; intros st; reflexivity. Qed.

Lemma stateless_unpack4 e : stateless (unpack4 e).
Proof. destruct e; intros st; reflexivity. Qed.

Lemma stateless_py_last {A} (xs : list A) : stateless (py_last xs).
Proof. unfold py_last. destruct (last xs); intros st; reflexivity. Qed.

Lemma stateless_py_floordiv a b : stateless (py_floordiv a b).
Proof. unfold py_floordiv. destruct (b =? 0); intros st; reflexivity. Qed.

Lemma stateless_py_setitem {A} (xs : list A) i v : stateless (py_setitem xs i v).
Proof. unfold py_setitem. destruct (_ && _); intros st; reflexivity. Qed.

Lemma stateless_icc_vdf_of icc : stateless (icc_vdf_of icc).
Proof. destruct icc; intros st; reflexivity. Qed.

#[local] Hint Resolve stateless_ret stateless_raise stateless_diverge
  stateless_attr_constants stateless_attr_finished_sub_slots stateless_unpack3
  stateless_unpack4 stateless_py_last stateless_py_floordiv
  stateless_py_setitem stateless_icc_vdf_of : stateless.

(* Splits a computation along its binds and conditionals. *)
Ltac stateless_tac :=
  repeat first
    [ progress auto with stateless
    | apply stateless_bind; [ | intros ? ]
    | match goal with
      | |- stateless (match ?x with _ => _ end) => destruct x
      | |- stateless (if ?b then _ else _) => destruct b
      | |- stateless (let '(_, _) := ?x in _) => destruct x
      end ].

(** Running a stateless computation first: only its outcome matters. *)
Lemma bind_stateless {A B} (m : M A) (k : A → M B) st :
  stateless m →
  bind m k st = match (m st).2 with
                | Return a => k a st
                | Raise e => (st, Raise e)
                | Diverge => (st, Diverge)
                end.
Proof.
  intros Hm. unfold bind. specialize (Hm st).
  destruct (m st) as [st' [a | e |]]; simpl in *; subst; reflexivity.
Qed.

Section Properties.
Context {env : Collaborators}.

Lemma stateless_slot_vdfs_valid c eos : stateless (slot_vdfs_valid c eos).
Proof. unfold slot_vdfs_valid. stateless_tac. Qed.

Lemma stateless_walk_to_challenge_start fuel c sub_blocks curr :
  stateless (walk_to_challenge_start fuel c sub_blocks curr).
Proof.
  revert curr. induction fuel as [| fuel IH]; intros curr; simpl;
    stateless_tac.
Qed.

Lemma stateless_deficit_check fuel c eos sub_blocks peak :
  stateless (deficit_check fuel c eos sub_blocks peak).
Proof.
  pose proof stateless_walk_to_challenge_start.
  unfold deficit_check. stateless_tac.
Qed.

Lemma stateless_empty_slot_checks c eos last_slot :
  stateless (empty_slot_checks c eos last_slot).
Proof. unfold empty_slot_checks. stateless_tac. Qed.

Lemma stateless_walk_to_first_in_sub_slot fuel recs curr :
  stateless (walk_to_first_in_sub_slot fuel recs curr).
Proof.
  revert curr. induction fuel as [| fuel IH]; intros curr; simpl;
    stateless_tac.
Qed.

(** ** One call of [new_finished_sub_slot] *)

Lemma last_snoc_inv {A} (l : list A) (x : A) :
  last l = Some x → ∃ l0, l = l0 ++ [x].
Proof.
  intros H. destruct l as [| a l] using rev_ind; [discriminate |].
  rewrite last_snoc in H. injection H as ->. eauto.
Qed.

Lemma new_finished_sub_slot_cases fuel eos sub_blocks peak st st' o :
  new_finished_sub_slot fuel eos sub_blocks peak st = (st', o) →
  nfss_effect eos peak st st' o.
Proof.
  unfold new_finished_sub_slot. intros H.
  rewrite bind_stateless in H by auto with stateless.
  unfold attr_finished_sub_slots in H.
  destruct (finished_sub_slots (self st)) as [ring |] eqn:Hring; simpl in H;
    [| by inversion H; constructor].
  destruct (last ring) as [e |] eqn:Hlast; [| by inversion H; constructor].
  apply last_snoc_inv in Hlast as [ring0 ->].
  rewrite bind_stateless in H by auto with stateless.
  destruct e as [last_slot sps last_iters | |]; simpl in H;
    try by inversion H; constructor.
  destruct (_ =? cc_get_hash _) eqn:Hchain; simpl in H;
    [| by inversion H; constructor].
  apply Z.eqb_eq in Hchain.
  rewrite bind_stateless in H by auto with stateless.
  unfold attr_constants in H.
  destruct (constants (self st)) as [c |] eqn:Hc; simpl in H;
    [| by inversion H; constructor].
  rewrite bind_stateless in H by apply stateless_slot_vdfs_valid.
  destruct (slot_vdfs_valid c eos st).2 as [valid | |] eqn:Hvalid;
    try by inversion H; constructor.
  destruct valid; simpl in H; [| by inversion H; constructor].
  assert (Hcc : is_valid (challenge_chain_slot_proof (proofs eos)) c
                  (cc_vdf_info eos) = true).
  { unfold slot_vdfs_valid in Hvalid. unfold cc_vdf_info.
    destruct (is_valid (challenge_chain_slot_proof _) _ _); [done |].
    discriminate Hvalid. }
  destruct (total_iters peak >? last_iters) eqn:Hpeak.
  - (* the peak is in this slot *)
    unfold peak_in_slot_checks in H.
    destruct (reward_infusion_new_challenge peak =? _) eqn:Hrc; simpl in H.
    + destruct (_ + _ =? _) eqn:Hsum; simpl in H.
      * rewrite bind_stateless in H by apply stateless_deficit_check.
        destruct (deficit_check fuel c eos sub_blocks peak st).2
          as [ok | |]; try by inversion H; constructor.
        destruct ok; simpl in H; [| by inversion H; constructor].
        unfold bind, attr_finished_sub_slots in H. rewrite Hring in H.
        simpl in H. inversion H; subst.
        eapply nfss_appended; eauto.
      * rewrite bind_stateless in H by auto with stateless.
        by inversion H; constructor.
    + apply Z.eqb_neq in Hrc.
      unfold bind, defer_eos, ret in H. simpl in H. inversion H; subst.
      by apply nfss_deferred.
  - (* an empty slot after the peak *)
    rewrite bind_stateless in H by apply stateless_empty_slot_checks.
    destruct (empty_slot_checks c eos last_slot st).2 as [ok | |];
      try by inversion H; constructor.
    destruct ok; simpl in H; [| by inversion H; constructor].
    unfold bind, attr_finished_sub_slots in H. rewrite Hring in H.
    simpl in H. inversion H; subst.
    eapply nfss_appended; eauto.
Qed.

Lemma dict_append_insert {A} (k : Z) (v : A) (d : gmap Z (list A)) :
  dict_append k v d = <[k := dict_get_list k d ++ [v]]> d.
Proof.
  unfold dict_append, dict_get_list.
  destruct (d !! k) as [l |] eqn:Hk; simpl.
  - by rewrite Hk.
  - by rewrite lookup_insert_eq, insert_insert_eq.
Qed.

(** C4. When the ring is empty, or when the bundle's challenge-chain VDF does
    not name the hash of the last ring element's challenge chain,
    [new_finished_sub_slot] returns False and the whole store (ring, caches,
    every other attribute) is as before. *)
Theorem new_finished_sub_slot_rejects_non_chaining
    fuel eos sub_blocks peak st ring :
  finished_sub_slots (self st) = Some ring →
  (ring = []
   ∨ ∃ ring0 last_slot sps last_iters,
       ring = ring0 ++ [Tup3 last_slot sps last_iters]
       ∧ challenge_hash (cc_vdf_info eos)
         ≠ cc_get_hash (challenge_chain last_slot)) →
  new_finished_sub_slot fuel eos sub_blocks peak st = (st, Return false).
Proof.
  intros Hring Hcase. unfold new_finished_sub_slot.
  rewrite bind_stateless by auto with stateless.
  unfold attr_finished_sub_slots. rewrite Hring. simpl.
  destruct Hcase as [-> | (ring0 & last_slot & sps & last_iters & -> & Hne)].
  - reflexivity.
  - rewrite last_snoc. rewrite bind_stateless by auto with stateless. simpl.
    apply Z.eqb_neq in Hne. unfold cc_vdf_info in Hne. by rewrite Hne.
Qed.

(** C3. On a ring whose last element is [(last_slot, sps, last_iters)], a
    bundle that chains on [last_slot], passes the VDF checks of lines
    171-181 and whose slot holds the peak ([peak.total_iters > last_iters]),
    but whose reward-chain challenge is not the peak's
    [reward_infusion_new_challenge], makes [new_finished_sub_slot] return
    False; the bundle is appended to the list cached under its reward-chain
    challenge, and the instance (so the ring) and the other caches are as
    before. *)
Theorem new_finished_sub_slot_defers
    fuel eos sub_blocks peak st ring0 last_slot sps last_iters c :
  finished_sub_slots (self st)
  = Some (ring0 ++ [Tup3 last_slot sps last_iters]) →
  constants (self st) = Some c →
  challenge_hash (cc_vdf_info eos) = cc_get_hash (challenge_chain last_slot) →
  (slot_vdfs_valid c eos st).2 = Return true →
  total_iters peak > last_iters →
  challenge_hash (rc_vdf_info eos) ≠ reward_infusion_new_challenge peak →
  ∃ st',
    new_finished_sub_slot fuel eos sub_blocks peak st = (st', Return false)
    ∧ self st' = self st
    ∧ future_eos_cache (cls st')
      = <[challenge_hash (rc_vdf_info eos) :=
            dict_get_list (challenge_hash (rc_vdf_info eos))
              (future_eos_cache (cls st)) ++ [eos]]>
          (future_eos_cache (cls st))
    ∧ future_sp_cache (cls st') = future_sp_cache (cls st)
    ∧ future_ip_cache (cls st') = future_ip_cache (cls st)
    ∧ future_sb_cache (cls st') = future_sb_cache (cls st).
Proof.
  intros Hring Hc Hchain Hvalid Hpeak Hrc.
  eexists. split.
  - unfold new_finished_sub_slot.
    rewrite bind_stateless by auto with stateless.
    unfold attr_finished_sub_slots. rewrite Hring. simpl.
    rewrite last_snoc. rewrite bind_stateless by auto with stateless. simpl.
    unfold cc_vdf_info in Hchain. apply Z.eqb_eq in Hchain. rewrite Hchain.
    simpl. rewrite bind_stateless by auto with stateless.
    unfold attr_constants. rewrite Hc. simpl.
    rewrite bind_stateless by apply stateless_slot_vdfs_valid.
    rewrite Hvalid. simpl.
    assert ((total_iters peak >? last_iters) = true) as -> by lia.
    unfold peak_in_slot_checks.
    assert ((reward_infusion_new_challenge peak
             =? challenge_hash (end_of_slot_vdf (reward_chain eos))) = false)
      as ->.
    { apply Z.eqb_neq. unfold rc_vdf_info in Hrc. congruence. }
    simpl. unfold bind, defer_eos, ret. simpl. reflexivity.
  - simpl. rewrite dict_append_insert. done.
Qed.

(** ** Signage points *)

Lemma get_signage_point_by_index_from_zero challenge last_rc_infusion ring st :
  Forall declared_shape ring →
  get_signage_point_by_index_from challenge 0 last_rc_infusion ring st
  = (st, Return
           (if decide (Exists (λ e, challenge_chain_hash (entry_sub_slot e)
                                    = challenge) ring)
            then Some empty_signage_point else None)).
Proof.
  induction 1 as [| e rest He _ IH].
  - rewrite decide_False; [reflexivity | by inversion 1].
  - destruct e as [s sps t | |]; try by destruct He.
    cbn [get_signage_point_by_index_from unpack3]. unfold bind at 1.
    cbn [ret entry_sub_slot].
    destruct (challenge_chain_hash s =? challenge) eqn:Hs.
    + apply Z.eqb_eq in Hs. rewrite decide_True; [reflexivity |].
      by apply Exists_cons_hd.
    + apply Z.eqb_neq in Hs. rewrite IH.
      destruct (decide (Exists _ rest)) as [Hrest | Hrest].
      * rewrite decide_True; [reflexivity | by apply Exists_cons_tl].
      * rewrite decide_False; [reflexivity |].
        rewrite Exists_cons. simpl. tauto.
Qed.

(** C8, as amended. On a ring of declared shape,
    [get_signage_point_by_index(H, 0, r)] returns the empty sentinel when
    some ring element has [challenge_chain_hash] equal to [H], whatever the
    signage-point tables hold, and returns None when no element has; the
    store is unchanged. *)
Theorem get_signage_point_by_index_zero st ring challenge last_rc_infusion :
  finished_sub_slots (self st) = Some ring →
  Forall declared_shape ring →
  (Exists (λ e, challenge_chain_hash (entry_sub_slot e) = challenge) ring →
   get_signage_point_by_index challenge 0 last_rc_infusion st
   = (st, Return (Some empty_signage_point)))
  ∧ (Forall (λ e, challenge_chain_hash (entry_sub_slot e) ≠ challenge) ring →
     get_signage_point_by_index challenge 0 last_rc_infusion st
     = (st, Return None)).
Proof.
  intros Hring Hshape.
  assert (Hrun : get_signage_point_by_index challenge 0 last_rc_infusion st
                 = get_signage_point_by_index_from challenge 0
                     last_rc_infusion ring st).
  { unfold get_signage_point_by_index, bind, attr_finished_sub_slots.
    by rewrite Hring. }
  rewrite Hrun, get_signage_point_by_index_from_zero by done.
  split; intros H.
  - by rewrite decide_True.
  - rewrite decide_False; [reflexivity |].
    intros Hex. apply Exists_exists in Hex as (e & He & Heq).
    rewrite Forall_forall in H. by apply (H e).
Qed.

(** On a ring whose first element has the declared shape the loop of line
    241 cannot unpack it: [new_signage_point] raises ValueError whatever the
    challenge, and stores nothing. *)
Lemma new_signage_point_declared_ring
    st c sub_slot sps total rest challenge index vcc pcc vrc prc :
  constants (self st) = Some c →
  finished_sub_slots (self st) = Some (Tup3 sub_slot sps total :: rest) →
  0 < index < NUM_CHECKPOINTS_PER_SLOT c →
  new_signage_point challenge index vcc pcc vrc prc st = (st, Raise ValueError).
Proof.
  intros Hc Hring [Hlo Hhi]. unfold new_signage_point.
  apply Z.ltb_lt in Hlo, Hhi. rewrite Hlo. simpl.
  unfold bind at 1. unfold bind at 1. unfold attr_constants. rewrite Hc.
  rewrite Hhi. simpl.
  unfold bind, attr_finished_sub_slots. rewrite Hring. reflexivity.
Qed.

(** ** Finished sub-slots between two hashes *)

Lemma find_indices_declared pos final index pi fi sub_slot sps total rest st :
  find_indices pos final index pi fi (Tup3 sub_slot sps total :: rest) st
  = (st, Raise ValueError).
Proof. reflexivity. Qed.

(** On a ring of declared shape [get_finished_sub_slots] returns no list:
    an element cannot be unpacked on line 342, and on the empty ring neither
    index is found. *)
Lemma get_finished_sub_slots_declared_ring
    fuel prev_sb recs pos extra st ring :
  finished_sub_slots (self st) = Some ring →
  Forall declared_shape ring →
  ∀ slots, (get_finished_sub_slots fuel prev_sb recs pos extra st).2
           ≠ Return slots.
Proof.
  intros Hring Hshape slots. unfold get_finished_sub_slots.
  rewrite bind_stateless.
  2:{ destruct prev_sb; [| stateless_tac].
      apply stateless_bind; [apply stateless_walk_to_first_in_sub_slot |].
      intros ?. auto with stateless. }
  match goal with |- context [match ?x with _ => _ end] => destruct x end;
    try discriminate.
  unfold bind at 1. unfold attr_finished_sub_slots at 1. rewrite Hring.
  destruct Hshape as [| e rest He _].
  - discriminate.
  - by destruct e.
Qed.

(** ** The peak transition *)







(** Lines 309-313 in closed form. *)
Lemma new_peak_seed_eq peak_sub_slot total prev prev_total st :
  new_peak_seed peak_sub_slot total prev prev_total st
  = match finished_sub_slots (self st) with
    | None => (st, Raise AttributeError)
    | Some _ =>
        match prev, prev_total with
        | Some p, Some pt =>
            (with_ring [Tup3 p ∅ pt; Tup3 peak_sub_slot ∅ total] st, Return tt)
        | Some p, None => (with_ring [] st, Raise AssertionError)
        | None, _ => (with_ring [Tup3 peak_sub_slot ∅ total] st, Return tt)
        end
    end.
Proof.
  unfold new_peak_seed, clear_slots, bind, attr_finished_sub_slots.
  destruct (finished_sub_slots (self st)); [| reflexivity].
  destruct prev, prev_total; reflexivity.
Qed.




(** *** The replay reads the instance only *)

Lemma instance_only_ret {A} (a : A) : instance_only (ret a).
Proof. by intros st1 st2 H. Qed.

Lemma instance_only_raise {A} (e : exn) : instance_only (@raise A e).
Proof. by intros st1 st2 H. Qed.

Lemma instance_only_diverge {A} : instance_only (@diverge A).
Proof. by intros st1 st2 H. Qed.


Lemma instance_only_attr_constants : instance_only attr_constants.
Proof.
  intros st1 st2 H. unfold attr_constants. rewrite H.
  by destruct (constants (self st2)).
Qed.

Lemma instance_only_attr_finished_sub_slots :
  instance_only attr_finished_sub_slots.
Proof.
  intros st1 st2 H. unfold attr_finished_sub_slots. rewrite H.
  by destruct (finished_sub_slots (self st2)).
Qed.

Lemma instance_only_set_finished_sub_slots r :
  instance_only (set_finished_sub_slots r).
Proof. intros st1 st2 H. simpl. by rewrite H. Qed.

Lemma instance_only_unpack3 e : instance_only (unpack3 e).
Proof. by destruct e; intros st1 st2 H. Qed.

Lemma instance_only_py_last {A} (xs : list A) : instance_only (py_last xs).
Proof. unfold py_last. by destruct (last xs); intros st1 st2 H. Qed.

Lemma instance_only_icc_vdf_of icc : instance_only (icc_vdf_of icc).
Proof. by destruct icc; intros st1 st2 H. Qed.

Lemma instance_only_defer_eos eos : instance_only (defer_eos eos).
Proof. by intros st1 st2 H. Qed.

#[local] Hint Resolve instance_only_ret instance_only_raise
  instance_only_diverge instance_only_attr_constants
  instance_only_attr_finished_sub_slots instance_only_set_finished_sub_slots
  instance_only_unpack3 instance_only_py_last instance_only_icc_vdf_of
  instance_only_defer_eos : instance_only.










Lemma ring_fresh_new_finished_sub_slot fuel eos sub_blocks peak st :
  ring_fresh st → ring_fresh (new_finished_sub_slot fuel eos sub_blocks peak st).1.
Proof.
  intros Hfresh.
  destruct (new_finished_sub_slot fuel eos sub_blocks peak st)
    as [st' o] eqn:Hcall.
  apply new_finished_sub_slot_cases in Hcall. simpl.
  destruct Hcall as [o Hrej | Hne | ring0 last_slot sps last_iters c Hring];
    [done | done |].
  destruct Hfresh as (ring & Hring' & Hshape).
  rewrite Hring in Hring'. injection Hring' as <-.
  eexists. split; [reflexivity |].
  apply Forall_app. split; [done | by repeat constructor].
Qed.

Lemma ring_fresh_new_peak_replay fuel sub_blocks peak cached :
  ∀ st, ring_fresh st →
        ring_fresh (new_peak_replay fuel cached sub_blocks peak st).1.
Proof.
  induction cached as [| e rest IH]; intros st Hfresh; [done |].
  cbn [new_peak_replay]. unfold bind.
  pose proof (ring_fresh_new_finished_sub_slot fuel e sub_blocks peak st
                Hfresh) as Hstep.
  destruct (new_finished_sub_slot fuel e sub_blocks peak st)
    as [st1 [[|] | |]]; simpl in Hstep; try done.
  by apply IH.
Qed.

(** Whenever [new_peak] returns, with or without reorg and whatever the ring
    held, every ring element carries the empty table: no signage point
    outlives a peak transition. *)
Lemma new_peak_returns_fresh_ring
    fuel peak peak_sub_slot total prev prev_total reorg sub_blocks st st'
    result :
  new_peak fuel peak peak_sub_slot total prev prev_total reorg sub_blocks st
  = (st', Return result) →
  ring_fresh st'.
Proof.
  unfold new_peak. unfold bind at 1.
  match goal with
  | |- context [match ?m st with _ => _ end] =>
      destruct (m st) as [st1 [total1 | e |]]
  end; try by inversion 1.
  unfold bind at 1. rewrite new_peak_seed_eq.
  destruct (finished_sub_slots (self st1)) as [ring1 |]; [| by inversion 1].
  assert (Hreplay : ∀ seed,
             Forall fresh_shape seed →
             new_peak_replay fuel
               (dict_get_list (reward_infusion_new_challenge peak)
                  (future_eos_cache (cls (with_ring seed st1))))
               sub_blocks peak (with_ring seed st1) = (st', Return result) →
             ring_fresh st').
  { intros seed Hseed Hrun.
    replace st' with (st', Return result).1 by done. rewrite <- Hrun.
    apply ring_fresh_new_peak_replay. by exists seed. }
  destruct prev as [p |], prev_total as [pt |]; try by inversion 1.
  all: intros Hrun; eapply Hreplay; [| exact Hrun]; by repeat constructor.
Qed.

(** ** The ring invariants *)

Lemma ring_chained_snoc r a b :
  ring_chained (r ++ [a]) → link_ok a b → ring_chained ((r ++ [a]) ++ [b]).
Proof.
  induction r as [| x r IH]; simpl.
  - tauto.
  - destruct r as [| y r]; simpl in *; tauto.
Qed.

Lemma ring_chained_lookup r :
  ring_chained r →
  ∀ (k : nat) a b, r !! k = Some a → r !! S k = Some b → link_ok a b.
Proof.
  induction r as [| x r IH]; intros Hr k a b Ha Hb; [done |].
  destruct r as [| y r]; [done |]. destruct Hr as [Hxy Hr].
  destruct k as [| k]; simpl in *.
  - by simplify_eq.
  - by eapply (IH Hr k).
Qed.

Lemma stateless_get_sub_slot_from challenge entries :
  ∀ index, stateless (get_sub_slot_from challenge index entries).
Proof.
  induction entries as [| e rest IH]; intros index; simpl; stateless_tac.
Qed.

Lemma stateless_find_by_rc_infusion last_rc_infusion sps :
  stateless (find_by_rc_infusion last_rc_infusion sps).
Proof. induction sps as [| sp rest IH]; simpl; stateless_tac. Qed.

Lemma stateless_get_signage_point_by_index_from challenge index last entries :
  stateless (get_signage_point_by_index_from challenge index last entries).
Proof.
  pose proof stateless_find_by_rc_infusion.
  induction entries as [| e rest IH]; simpl; stateless_tac.
Qed.

Lemma stateless_find_indices pos final entries :
  ∀ index pos_index final_index,
    stateless (find_indices pos final index pos_index final_index entries).
Proof.
  induction entries as [| e rest IH]; intros index pos_index final_index;
    simpl; stateless_tac.
Qed.

Lemma stateless_sub_slots_of entries : stateless (sub_slots_of entries).
Proof. induction entries as [| e rest IH]; simpl; stateless_tac. Qed.

Lemma stateless_get_finished_sub_slots fuel prev_sb recs pos extra :
  stateless (get_finished_sub_slots fuel prev_sb recs pos extra).
Proof.
  pose proof stateless_walk_to_first_in_sub_slot.
  pose proof stateless_find_indices.
  pose proof stateless_sub_slots_of.
  unfold get_finished_sub_slots. stateless_tac.
Qed.

(** On a ring of declared shape [new_signage_point] stores nothing. *)
Lemma new_signage_point_declared_state
    challenge index vcc pcc vrc prc st ring :
  finished_sub_slots (self st) = Some ring →
  Forall declared_shape ring →
  (new_signage_point challenge index vcc pcc vrc prc st).1 = st.
Proof.
  intros Hring Hshape. unfold new_signage_point.
  rewrite bind_stateless by stateless_tac.
  match goal with |- context [match ?x with _ => _ end] => destruct x end;
    try reflexivity.
  unfold bind, attr_finished_sub_slots. rewrite Hring.
  destruct Hshape as [| e rest He _]; [reflexivity |].
  by destruct e.
Qed.

(** On a ring of declared shape lines 287-305 change nothing, and they hand
    the parameter [total_iters] on only when the ring is empty. *)
Lemma new_peak_no_reorg_declared peak peak_sub_slot total prev st ring st' o :
  finished_sub_slots (self st) = Some ring →
  Forall declared_shape ring →
  new_peak_no_reorg peak peak_sub_slot total prev st = (st', o) →
  st' = st ∧ ∀ total', o = Return total' → total' = total.
Proof.
  intros Hring Hshape. unfold new_peak_no_reorg.
  do 3 (rewrite bind_stateless by auto with stateless;
        match goal with
        | |- context [match ?x with _ => _ end] => destruct x
        end; try by inversion 1).
  unfold bind, attr_finished_sub_slots. rewrite Hring.
  destruct Hshape as [| e rest He _].
  - inversion 1; subst. split; [done |]. by inversion 1.
  - destruct e; try done. by inversion 1.
Qed.

Section RingInvariant.

(** The verifier rejects a VDF of zero iterations. *)
Hypothesis is_valid_positive :
  ∀ p c v, is_valid p c v = true → 0 < number_of_iterations v.

Lemma ring_inv_new_finished_sub_slot fuel eos sub_blocks peak st :
  ring_inv st →
  ring_inv (new_finished_sub_slot fuel eos sub_blocks peak st).1.
Proof.
  intros Hinv.
  destruct (new_finished_sub_slot fuel eos sub_blocks peak st)
    as [st' o] eqn:Hcall.
  apply new_finished_sub_slot_cases in Hcall. simpl.
  destruct Hcall as [o Hrej | Hne | ring0 last_slot sps last_iters c
                                     Hring Hc Hchain Hvalid];
    [done | done |].
  destruct Hinv as (ring & Hring' & Hshape & Hchained).
  rewrite Hring in Hring'. injection Hring' as <-.
  eexists. split; [reflexivity |]. split.
  - apply Forall_app. split; [done | by repeat constructor].
  - apply ring_chained_snoc; [done |].
    apply is_valid_positive in Hvalid.
    unfold link_ok. simpl. repeat split; [lia | done].
Qed.

Lemma ring_inv_new_peak_replay fuel sub_blocks peak cached :
  ∀ st, ring_inv st →
        ring_inv (new_peak_replay fuel cached sub_blocks peak st).1.
Proof.
  induction cached as [| e rest IH]; intros st Hinv; [done |].
  cbn [new_peak_replay]. unfold bind.
  pose proof (ring_inv_new_finished_sub_slot fuel e sub_blocks peak st Hinv)
    as Hstep.
  destruct (new_finished_sub_slot fuel e sub_blocks peak st)
    as [st1 [[|] | |]]; simpl in Hstep; try done.
  by apply IH.
Qed.

(** A consistently seeded [new_peak] on a ring of declared shape either
    raises before line 309 with the store as it was, or leaves a ring that
    satisfies the invariants. *)
Lemma new_peak_cases
    fuel peak peak_sub_slot total prev prev_total reorg sub_blocks st ring0
    st' o :
  finished_sub_slots (self st) = Some ring0 →
  Forall declared_shape ring0 →
  seed_consistent peak_sub_slot total prev prev_total →
  new_peak fuel peak peak_sub_slot total prev prev_total reorg sub_blocks st
  = (st', o) →
  (st' = st ∧ ∀ result, o ≠ Return result) ∨ ring_inv st'.
Proof.
  intros Hring Hshape Hseed. unfold new_peak. unfold bind at 1.
  match goal with
  | |- context [match ?m st with _ => _ end] =>
      assert (Hpre : (m st).1 = st
                     ∧ ∀ total', (m st).2 = Return total' → total' = total);
      [ destruct reorg; simpl; [by split; [| inversion 1] |];
        destruct (new_peak_no_reorg peak peak_sub_slot total prev st)
          as [st1 o1] eqn:Hpre;
        by eapply new_peak_no_reorg_declared in Hpre |];
      destruct (m st) as [st1 [total1 | e |]]
  end; simpl in Hpre; destruct Hpre as [-> Htotal];
    try (inversion 1; subst; left; by split).
  rewrite (Htotal total1 eq_refl). clear Htotal.
  unfold bind at 1. rewrite new_peak_seed_eq, Hring.
  assert (Hreplay : ∀ seed,
             ring_chained seed → Forall declared_shape seed →
             new_peak_replay fuel
               (dict_get_list (reward_infusion_new_challenge peak)
                  (future_eos_cache (cls (with_ring seed st))))
               sub_blocks peak (with_ring seed st) = (st', o) →
             ring_inv st').
  { intros seed Hchained Hseedshape Hrun.
    replace st' with (st', o).1 by done. rewrite <- Hrun.
    apply ring_inv_new_peak_replay. by exists seed. }
  destruct Hseed as [Hclaimed Hsum].
  destruct prev as [p |], prev_total as [pt |]; simpl in *.
  - intros Hrun. right. eapply Hreplay; [| | exact Hrun].
    + destruct Hclaimed as [Hhash Hlt]. split; [| done].
      unfold link_ok. simpl. auto.
    + by repeat constructor.
  - inversion 1; subst. right. by exists [].
  - intros Hrun. right. eapply Hreplay; [| | exact Hrun];
      [done | by repeat constructor].
  - intros Hrun. right. eapply Hreplay; [| | exact Hrun];
      [done | by repeat constructor].
Qed.

Lemma ring_inv_run c st : ring_inv st → admissible c → ring_inv (run c st).
Proof.
  intros Hinv Hadm.
  destruct c; simpl.
  - by apply ring_inv_new_finished_sub_slot.
  - destruct Hinv as (ring & Hring & Hshape & Hchained).
    erewrite new_signage_point_declared_state by done. by exists ring.
  - destruct Hinv as (ring & Hring & Hshape & Hchained).
    destruct (new_peak fuel peak peak_sub_slot total prev_sub_slot
                prev_sub_slot_total_iters reorg sub_blocks st)
      as [st' o] eqn:Hrun.
    eapply new_peak_cases in Hrun as [[-> _] | Hinv']; try done.
    by exists ring.
  - destruct Hinv as (ring & Hring & Hshape & Hchained).
    unfold clear_slots, bind, attr_finished_sub_slots. rewrite Hring.
    by exists [].
  - done.
  - done.
  - done.
  - done.
  - unfold get_sub_slot.
    rewrite stateless_bind; [done | auto with stateless |].
    intros ?. apply stateless_get_sub_slot_from.
  - unfold get_signage_point_by_index.
    rewrite stateless_bind; [done | auto with stateless |].
    intros ?. apply stateless_get_signage_point_by_index_from.
  - by rewrite stateless_get_finished_sub_slots.
  - done.
Qed.

Lemma reachable_ring_inv st : reachable st → ring_inv st.
Proof.
  induction 1 as [st0 ring0 fuel peak peak_sub_slot total prev prev_total reorg
                    sub_blocks result Hring Hshape Hseed Hret
                 | st c _ IH Hadm].
  - destruct (new_peak fuel peak peak_sub_slot total prev prev_total reorg
                sub_blocks st0) as [st' o] eqn:Hrun.
    simpl in *. subst o.
    eapply new_peak_cases in Hrun as [[_ Hno] | Hinv]; try done.
    by destruct (Hno result).
  - by apply ring_inv_run.
Qed.

(** C2, as amended. Let the verifier reject VDFs of zero iterations.  In
    every state reached by any sequence of calls from a [new_peak] call that
    returned on a store whose ring elements have the declared shape, where
    that call and every later [new_peak] were given sub-slots that chain with
    [prev_sub_slot_total_iters < total_iters] and
    [total_iters = prev_sub_slot_total_iters + cc iterations of the peak's
    sub-slot], the ring exists and every adjacent pair [(a, b)] has
    [a.total < b.total], the challenge-chain VDF of [b] names the hash of the
    challenge chain of [a], and [b.total = a.total + cc iterations of b]. *)
Theorem reachable_ring_chained st :
  reachable st →
  ∃ ring,
    finished_sub_slots (self st) = Some ring
    ∧ ∀ (k : nat) a b,
        ring !! k = Some a → ring !! S k = Some b →
        entry_total a < entry_total b
        ∧ challenge_hash (cc_vdf_info (entry_sub_slot b))
          = cc_get_hash (challenge_chain (entry_sub_slot a))
        ∧ entry_total b
          = entry_total a
            + number_of_iterations (cc_vdf_info (entry_sub_slot b)).
Proof.
  intros Hreach. apply reachable_ring_inv in Hreach
    as (ring & Hring & _ & Hchained).
  exists ring. split; [done |].
  intros k a b Ha Hb. by eapply (ring_chained_lookup ring Hchained k).
Qed.

End RingInvariant.

(** ** Two stores *)

(** What the first store puts aside is what the second store reads. *)
Lemma add_to_future_ip_on_A_read_on_B w infusion_point challenge :
  (on_B (get_future_ip challenge)
     (on_A (add_to_future_ip infusion_point) w).1).2
  = Return
      (dict_get_list challenge
         (dict_append
            (challenge_hash (ip_reward_chain_ip_vdf infusion_point))
            infusion_point (future_ip_cache (shared w)))).
Proof. reflexivity. Qed.

Lemma add_to_future_sb_on_A_read_on_B w sub_block challenge :
  (on_B (get_future_sb challenge)
     (on_A (add_to_future_sb sub_block) w).1).2
  = Return
      (dict_get_list challenge
         (dict_append
            (challenge_hash
               (reward_chain_ip_vdf (reward_chain_sub_block sub_block)))
            sub_block (future_sb_cache (shared w)))).
Proof. reflexivity. Qed.

(** C10. For every constants argument (and whatever the class-level caches
    hold) [FullNodeStore.create] raises AttributeError and returns no
    store: [clear_slots] reads [finished_sub_slots], which no statement has
    assigned on the new object and which the class body only annotates. *)
Theorem create_raises_AttributeError :
  ∀ (c : ConsensusConstants) (k : ClassAttrs),
    create c k = (k, Raise AttributeError).
Proof.
  intros c [eos sp ip sb]. reflexivity.
Qed.

End Properties.

(** ** The properties at sample inputs *)

(* Scenario S2: the ring ends at [slot3] (hash 1003); the bundle names 4242. *)
Lemma new_finished_sub_slot_rejects_non_chaining_witness :
  new_finished_sub_slot (env := sample_env) 0
    (sample_eos 4242 100 9 3003 100 9) ∅ (sample_peak 250 3003)
    (store_with no_caches [Tup3 slot2 ∅ 300; Tup3 slot3 ∅ 400])
  = (store_with no_caches [Tup3 slot2 ∅ 300; Tup3 slot3 ∅ 400], Return false).
Proof.
  apply (new_finished_sub_slot_rejects_non_chaining (env := sample_env)
           0 _ ∅ _ _ [Tup3 slot2 ∅ 300; Tup3 slot3 ∅ 400]).
  - reflexivity.
  - right. exists [Tup3 slot2 ∅ 300], slot3, ∅, 400.
    split; [reflexivity | simpl; lia].
Defined.

(* Scenario S3: the peak carries challenge 3001 (R_1), the bundle 3777 (R_2). *)
Lemma new_finished_sub_slot_defers_witness :
  ∃ st',
    new_finished_sub_slot (env := sample_env) 0
      (sample_eos 1002 100 3 3777 100 3) ∅ (sample_peak 350 3001)
      (store_with no_caches [Tup3 slot2 ∅ 300])
    = (st', Return false)
    ∧ self st' = self (store_with no_caches [Tup3 slot2 ∅ 300])
    ∧ future_eos_cache (cls st')
      = <[3777 := dict_get_list 3777 ∅ ++ [sample_eos 1002 100 3 3777 100 3]]> ∅
    ∧ future_sp_cache (cls st') = ∅
    ∧ future_ip_cache (cls st') = ∅
    ∧ future_sb_cache (cls st') = ∅.
Proof.
  apply (new_finished_sub_slot_defers (env := sample_env) 0
           (sample_eos 1002 100 3 3777 100 3) ∅ (sample_peak 350 3001)
           (store_with no_caches [Tup3 slot2 ∅ 300]) [] slot2 ∅ 300
           sample_constants).
  - reflexivity.
  - reflexivity.
  - reflexivity.
  - reflexivity.
  - simpl. lia.
  - simpl. lia.
Defined.

(** *** The sentinel signage point (scenario S5) *)

(* The challenge 4242 matches no ring element: the answer is None although
   the index is 0. *)
Lemma get_signage_point_by_index_zero_counterexample :
  (get_signage_point_by_index (env := sample_env) 4242 0 3001
     (store_with no_caches [Tup3 slot2 full_dict 300])).2
  = Return None
  ∧ (get_signage_point_by_index (env := sample_env) 4242 0 3001
       (store_with no_caches [Tup3 slot2 full_dict 300])).2
    ≠ Return (Some empty_signage_point).
Proof.
  split; [reflexivity | discriminate].
Qed.

Lemma get_signage_point_by_index_zero_witness :
  get_signage_point_by_index (env := sample_env) 1002 0 3001
    (store_with no_caches [Tup3 slot1 ∅ 200; Tup3 slot2 full_dict 300])
  = (store_with no_caches [Tup3 slot1 ∅ 200; Tup3 slot2 full_dict 300],
     Return (Some empty_signage_point)).
Proof.
  apply (get_signage_point_by_index_zero (env := sample_env)
           (store_with no_caches [Tup3 slot1 ∅ 200; Tup3 slot2 full_dict 300])
           [Tup3 slot1 ∅ 200; Tup3 slot2 full_dict 300] 1002 3001).
  - reflexivity.
  - repeat constructor.
  - apply Exists_cons_tl, Exists_cons_hd. reflexivity.
Defined.

(** *** Storing a signage point *)

(** C5, at a failing input. The ring is the one [new_peak] seeds for
    [slot2] (challenge-chain hash 1002).  [new_signage_point] for that hash
    and index 1 raises ValueError and stores nothing, where the claim has it
    store the pair and return True; for the unknown hash 4242 it raises
    ValueError as well, where the claim has it return False. *)
Theorem new_signage_point_fails_on_seeded_ring :
  let st := (new_peak (env := sample_env) 0 (sample_peak 350 3001) slot2 300
               None None true ∅ (store_with no_caches [])).1 in
  finished_sub_slots (self st) = Some [Tup3 slot2 ∅ 300]
  ∧ new_signage_point (env := sample_env) 1002 1
      (mkVDFInfo 1002 100 7) (mkVDFProof 0 7)
      (mkVDFInfo 3002 100 7) (mkVDFProof 0 7) st
    = (st, Raise ValueError)
  ∧ new_signage_point (env := sample_env) 4242 1
      (mkVDFInfo 1002 100 7) (mkVDFProof 0 7)
      (mkVDFInfo 3002 100 7) (mkVDFProof 0 7) st
    = (st, Raise ValueError).
Proof.
  split; [reflexivity |].
  split; eapply (new_signage_point_declared_ring (env := sample_env));
    try reflexivity; simpl; lia.
Qed.

(* On a ring of 4-tuples, which no method builds, the pair is stored. *)
Example new_signage_point_on_four_tuples :
  new_signage_point (env := sample_env) 1002 1
    (mkVDFInfo 1002 100 7) (mkVDFProof 0 7)
    (mkVDFInfo 3002 100 8) (mkVDFProof 0 8)
    (store_with no_caches [Tup4 slot2 [None; None; None] [None; None; None] 300])
  = (store_with no_caches
       [Tup4 slot2 [None; Some (mkVDFInfo 1002 100 7, mkVDFProof 0 7); None]
          [None; Some (mkVDFInfo 3002 100 8, mkVDFProof 0 8); None] 300],
     Return true).
Proof. reflexivity. Qed.

(** *** Finished sub-slots between two hashes (scenario S6) *)

(** C7, at a failing input. The ring holds slots 0..4 in the declared shape,
    the chain [prev_sb] belongs to ends with slot 1 (hash 1001) and
    [pos_challenge_hash] is that of slot 3 (1003).  For both values of
    [extra_sub_slot] the call raises ValueError, where the claim has it
    return slots [2,3] and [2,3,4]. *)
Theorem get_finished_sub_slots_fails_on_declared_ring :
  get_finished_sub_slots (env := sample_env) 0 (Some (sample_peak 250 3001))
    ∅ 1003 false (store_with no_caches ring_0_to_4)
  = (store_with no_caches ring_0_to_4, Raise ValueError)
  ∧ get_finished_sub_slots (env := sample_env) 0 (Some (sample_peak 250 3001))
      ∅ 1003 true (store_with no_caches ring_0_to_4)
    = (store_with no_caches ring_0_to_4, Raise ValueError).
Proof. split; reflexivity. Qed.

(* On a ring of 4-tuples, which no method builds, the slices are the claimed
   ones. *)
Example get_finished_sub_slots_on_four_tuples :
  let ring := ring_0_to_4_four_tuples in
  (get_finished_sub_slots (env := sample_env) 0 (Some (sample_peak 250 3001))
     ∅ 1003 false (store_with no_caches ring)).2
  = Return [slot2; slot3]
  ∧ (get_finished_sub_slots (env := sample_env) 0 (Some (sample_peak 250 3001))
       ∅ 1003 true (store_with no_caches ring)).2
    = Return [slot2; slot3; slot4].
Proof. split; reflexivity. Qed.

(** *** Adopting a peak without reorg (scenario S4) *)

(** C1, at two failing inputs; the peak has
    [ip_iters // checkpoint_size + 1 = 5].
    - The ring holds [slot2] in the declared shape with signage points at
      indices 1..31: [new_peak] with [reorg = False] raises ValueError on
      line 295 and the store is as before.
    - The ring holds [slot2] as a 4-tuple with both tables populated at
      1..31: the loop builds the truncated tables (indices 0..4 kept, 5..31
      None), and lines 309-313 then run all the same, so that the call
      returns with [slot2] carrying an empty table: indices 1..4 are not
      retained. *)
Theorem new_peak_no_reorg_loses_signage_points :
  new_peak (env := sample_env) 0 (sample_peak 350 3001) slot2 300 None None
    false ∅ (store_with no_caches [Tup3 slot2 full_dict 300])
  = (store_with no_caches [Tup3 slot2 full_dict 300], Raise ValueError)
  ∧ new_peak_no_reorg (env := sample_env) (sample_peak 350 3001) slot2 300 None
      (store_with no_caches [Tup4 slot2 full_table full_table 300])
    = (store_with no_caches [Boxed4 slot2 truncated_table truncated_table 300],
       Return 300)
  ∧ new_peak (env := sample_env) 0 (sample_peak 350 3001) slot2 300 None None
      false ∅ (store_with no_caches [Tup4 slot2 full_table full_table 300])
    = (store_with no_caches [Tup3 slot2 ∅ 300], Return None).
Proof. repeat split; reflexivity. Qed.

(** *** Two stores *)

(** C9, at a failing input. Calls made on the first store only (an infusion
    point and a block put aside, a bundle deferred by
    [new_finished_sub_slot]) change what the second store reads from
    [future_ip_cache], [future_sb_cache] and [future_eos_cache]. *)
Theorem future_caches_are_shared_between_stores :
  let deferred := sample_eos 1002 100 3 3777 100 3 in
  let w1 := (on_A (add_to_future_ip sample_ip) two_stores).1 in
  let w2 := (on_A (add_to_future_sb sample_block) w1).1 in
  let w3 := (on_A (new_finished_sub_slot (env := sample_env) 0 deferred ∅
                     (sample_peak 350 3001)) w2).1 in
  store_B w3 = store_B two_stores
  ∧ (on_B (get_future_ip 3001) two_stores).2 = Return []
  ∧ (on_B (get_future_ip 3001) w3).2 = Return [sample_ip]
  ∧ (on_B (get_future_sb 3001) two_stores).2 = Return []
  ∧ (on_B (get_future_sb 3001) w3).2 = Return [sample_block]
  ∧ future_eos_cache (cls (view_B two_stores)) !! 3777 = None
  ∧ future_eos_cache (cls (view_B w3)) !! 3777 = Some [deferred].
Proof. repeat split; reflexivity. Qed.

(** *** Replaying deferred bundles (scenario S3) *)



(** *** The ring invariants (scenario S1) *)

(* First: a seeding that chains with [200 < 350] leaves a ring whose second
   element does not end 100 iterations after the first.  Second: with a
   verifier that accepts it, a bundle of zero iterations is appended at the
   total of its predecessor. *)
Lemma ring_invariants_counterexample :
  (let r := new_peak (env := sample_env) 0 (sample_peak 250 3001) slot2 350
              (Some slot1) (Some 200) true ∅ (store_with no_caches []) in
   seed_as_claimed (env := sample_env) slot2 350 (Some slot1) (Some 200)
   ∧ r.2 = Return None
   ∧ finished_sub_slots (self r.1)
     = Some [Tup3 slot1 ∅ 200; Tup3 slot2 ∅ 350]
   ∧ 350 ≠ 200 + number_of_iterations (cc_vdf_info slot2))
  ∧ (let seeded := (new_peak (env := lax_env) 0 (sample_peak 250 3001) slot2
                      300 None None true ∅ (store_with no_caches [])).1 in
     let r := new_finished_sub_slot (env := lax_env) 0 zero_eos ∅
                (sample_peak 250 3001) seeded in
     r.2 = Return true
     ∧ finished_sub_slots (self r.1)
       = Some [Tup3 slot2 ∅ 300; Tup3 zero_eos ∅ 300]
     ∧ ¬ (300 < 300)).
Proof.
  split.
  - repeat split; try reflexivity. simpl. lia.
  - repeat split; try reflexivity. lia.
Qed.

Lemma sample_env_is_valid_positive :
  ∀ p c v, is_valid (Collaborators := sample_env) p c v = true →
           0 < number_of_iterations v.
Proof.
  intros p c v H. simpl in H. apply andb_prop in H as [H _].
  by apply Z.ltb_lt.
Defined.

(* The peak's sub-slot is seeded at 300; [slot3] (100 iterations) and
   [eos_150] are fed in turn. *)
Lemma reachable_ring_chained_witness :
  let st := run (env := sample_env)
              (CallNewFinishedSubSlot 0 eos_150 ∅ (sample_peak 250 3001))
              (run (env := sample_env)
                 (CallNewFinishedSubSlot 0 slot3 ∅ (sample_peak 250 3001))
                 (new_peak (env := sample_env) 0 (sample_peak 250 3001) slot2
                    300 None None true ∅ (store_with no_caches [])).1) in
  finished_sub_slots (self st)
  = Some [Tup3 slot2 ∅ 300; Tup3 slot3 ∅ 400; Tup3 eos_150 ∅ 550]
  ∧ ∃ ring,
      finished_sub_slots (self st) = Some ring
      ∧ ∀ (k : nat) a b,
          ring !! k = Some a → ring !! S k = Some b →
          entry_total a < entry_total b
          ∧ challenge_hash (cc_vdf_info (entry_sub_slot b))
            = cc_get_hash (Collaborators := sample_env)
                (challenge_chain (entry_sub_slot a))
          ∧ entry_total b
            = entry_total a
              + number_of_iterations (cc_vdf_info (entry_sub_slot b)).
Proof.
  split; [reflexivity |].
  apply (reachable_ring_chained (env := sample_env)
           sample_env_is_valid_positive).
  apply reachable_call; [| exact I].
  apply reachable_call; [| exact I].
  apply (reachable_seed (env := sample_env) (store_with no_caches []) []
           0 (sample_peak 250 3001) slot2 300 None None true ∅ None).
  - reflexivity.
  - constructor.
  - split; exact I.
  - reflexivity.
Defined.

(** * Further properties of the store *)

Section MoreProperties.
Context {env : Collaborators}.

(** ** Accepting and rejecting a finished sub-slot *)

(** Once the ring ends with a 3-tuple the bundle chains on, the constants are
    there and the VDF checks pass, what remains of [new_finished_sub_slot]
    is the branch on the peak and the append. *)
Lemma new_finished_sub_slot_after_validation
    fuel eos sub_blocks peak st ring0 last_slot sps last_iters c :
  finished_sub_slots (self st)
  = Some (ring0 ++ [Tup3 last_slot sps last_iters]) →
  constants (self st) = Some c →
  challenge_hash (cc_vdf_info eos) = cc_get_hash (challenge_chain last_slot) →
  (slot_vdfs_valid c eos st).2 = Return true →
  new_finished_sub_slot fuel eos sub_blocks peak st
  = bind
      (if total_iters peak >? last_iters
       then peak_in_slot_checks fuel c eos sub_blocks peak
              (last_iters + number_of_iterations (cc_vdf_info eos))
       else empty_slot_checks c eos last_slot)
      (λ ok, if negb ok then ret false
             else ring' <- attr_finished_sub_slots ;;
                  set_finished_sub_slots
                    (ring' ++ [Tup3 eos ∅
                                 (last_iters
                                  + number_of_iterations (cc_vdf_info eos))]) ;;;
                  ret true)
      st.
Proof.
  intros Hring Hc Hchain Hvalid. unfold new_finished_sub_slot.
  rewrite bind_stateless by auto with stateless.
  unfold attr_finished_sub_slots at 1. rewrite Hring. simpl.
  rewrite last_snoc. rewrite bind_stateless by auto with stateless. simpl.
  unfold cc_vdf_info in Hchain. apply Z.eqb_eq in Hchain. rewrite Hchain.
  simpl. rewrite bind_stateless by auto with stateless.
  unfold attr_constants at 1. rewrite Hc. simpl.
  rewrite bind_stateless by apply stateless_slot_vdfs_valid.
  rewrite Hvalid. reflexivity.
Qed.

(** X1. A bundle for an empty slot after the peak is accepted: when it chains
    on the last ring element by challenge-chain and by reward-chain hash,
    passes the VDF checks, the peak does not lie beyond the last element,
    and either the last slot's deficit is not below the threshold or the
    infused challenge chains chain as well, [new_finished_sub_slot] returns
    True and appends [(eos, {}, last_iters + cc iterations)]; nothing else
    changes. *)
Theorem new_finished_sub_slot_accepts_empty_slot
    fuel eos sub_blocks peak st ring0 last_slot sps last_iters c :
  finished_sub_slots (self st)
  = Some (ring0 ++ [Tup3 last_slot sps last_iters]) →
  constants (self st) = Some c →
  challenge_hash (cc_vdf_info eos) = cc_get_hash (challenge_chain last_slot) →
  (slot_vdfs_valid c eos st).2 = Return true →
  total_iters peak ≤ last_iters →
  challenge_hash (rc_vdf_info eos) = rc_get_hash (reward_chain last_slot) →
  (MIN_SUB_BLOCKS_PER_CHALLENGE_BLOCK c ≤ rc_deficit (reward_chain last_slot)
   ∨ ∃ icc last_icc,
       infused_challenge_chain eos = Some icc
       ∧ infused_challenge_chain last_slot = Some last_icc
       ∧ challenge_hash (infused_challenge_chain_end_of_slot_vdf icc)
         = icc_get_hash last_icc) →
  new_finished_sub_slot fuel eos sub_blocks peak st
  = (with_ring
       ((ring0 ++ [Tup3 last_slot sps last_iters])
        ++ [Tup3 eos ∅ (last_iters + number_of_iterations (cc_vdf_info eos))])
       st,
     Return true).
Proof.
  intros Hring Hc Hchain Hvalid Hpeak Hrc Hicc.
  rewrite (new_finished_sub_slot_after_validation _ _ _ _ _ _ _ _ _ _
             Hring Hc Hchain Hvalid).
  assert ((total_iters peak >? last_iters) = false) as -> by lia.
  assert (Hchecks : empty_slot_checks c eos last_slot st = (st, Return true)).
  { unfold empty_slot_checks. unfold rc_vdf_info in Hrc.
    apply Z.eqb_eq in Hrc. rewrite Hrc. simpl.
    destruct (rc_deficit (reward_chain last_slot)
              <? MIN_SUB_BLOCKS_PER_CHALLENGE_BLOCK c) eqn:Hdef;
      [| reflexivity].
    destruct Hicc as [Hge | (icc & last_icc & Hi & Hl & Heq)]; [lia |].
    rewrite Hi, Hl. unfold bind. simpl.
    apply Z.eqb_eq in Heq. by rewrite Heq. }
  unfold bind at 1. rewrite Hchecks. simpl.
  unfold bind, attr_finished_sub_slots. by rewrite Hring.
Qed.

(** X2. A bundle whose slot holds the peak is accepted: when it chains on the
    last ring element, passes the VDF checks, the peak lies beyond the last
    element, the reward-chain VDF starts from the peak's
    [reward_infusion_new_challenge], the iteration counts agree
    ([peak.total_iters + rc iterations = last_iters + cc iterations]) and the
    peak's deficit is not below the threshold, [new_finished_sub_slot]
    returns True and appends [(eos, {}, last_iters + cc iterations)], for
    every sub-block map. *)
Theorem new_finished_sub_slot_accepts_peak_slot
    fuel eos sub_blocks peak st ring0 last_slot sps last_iters c :
  finished_sub_slots (self st)
  = Some (ring0 ++ [Tup3 last_slot sps last_iters]) →
  constants (self st) = Some c →
  challenge_hash (cc_vdf_info eos) = cc_get_hash (challenge_chain last_slot) →
  (slot_vdfs_valid c eos st).2 = Return true →
  total_iters peak > last_iters →
  reward_infusion_new_challenge peak = challenge_hash (rc_vdf_info eos) →
  total_iters peak + number_of_iterations (rc_vdf_info eos)
  = last_iters + number_of_iterations (cc_vdf_info eos) →
  MIN_SUB_BLOCKS_PER_CHALLENGE_BLOCK c ≤ deficit peak →
  new_finished_sub_slot fuel eos sub_blocks peak st
  = (with_ring
       ((ring0 ++ [Tup3 last_slot sps last_iters])
        ++ [Tup3 eos ∅ (last_iters + number_of_iterations (cc_vdf_info eos))])
       st,
     Return true).
Proof.
  intros Hring Hc Hchain Hvalid Hpeak Hrc Hsum Hdef.
  rewrite (new_finished_sub_slot_after_validation _ _ _ _ _ _ _ _ _ _
             Hring Hc Hchain Hvalid).
  assert ((total_iters peak >? last_iters) = true) as -> by lia.
  assert (Hchecks : peak_in_slot_checks fuel c eos sub_blocks peak
                      (last_iters + number_of_iterations (cc_vdf_info eos)) st
                    = (st, Return true)).
  { unfold peak_in_slot_checks. unfold rc_vdf_info in Hrc, Hsum.
    apply Z.eqb_eq in Hrc. rewrite Hrc. simpl.
    apply Z.eqb_eq in Hsum. rewrite Hsum. simpl.
    unfold deficit_check.
    by assert ((deficit peak <? MIN_SUB_BLOCKS_PER_CHALLENGE_BLOCK c) = false)
      as -> by lia. }
  unfold bind at 1. rewrite Hchecks. simpl.
  unfold bind, attr_finished_sub_slots. by rewrite Hring.
Qed.

(** X3. What a call of [new_finished_sub_slot] can change, whatever its
    arguments and outcome.  The caches of signage points, infusion points
    and blocks are untouched; [future_eos_cache] is untouched or has the
    bundle appended under its reward-chain challenge, the call then
    returning False; the instance changes exactly when True is returned,
    and then by the one element [(eos, {}, t)] appended to the ring. *)
Theorem new_finished_sub_slot_frame
    fuel eos sub_blocks peak st ring st' o :
  finished_sub_slots (self st) = Some ring →
  new_finished_sub_slot fuel eos sub_blocks peak st = (st', o) →
  future_sp_cache (cls st') = future_sp_cache (cls st)
  ∧ future_ip_cache (cls st') = future_ip_cache (cls st)
  ∧ future_sb_cache (cls st') = future_sb_cache (cls st)
  ∧ (future_eos_cache (cls st') = future_eos_cache (cls st)
     ∨ o = Return false
       ∧ future_eos_cache (cls st')
         = <[challenge_hash (rc_vdf_info eos) :=
               dict_get_list (challenge_hash (rc_vdf_info eos))
                 (future_eos_cache (cls st)) ++ [eos]]>
             (future_eos_cache (cls st)))
  ∧ (o = Return true →
     ∃ t, self st' = self (with_ring (ring ++ [Tup3 eos ∅ t]) st))
  ∧ (o ≠ Return true → self st' = self st).
Proof.
  intros Hring Hrun. apply new_finished_sub_slot_cases in Hrun.
  destruct Hrun as [o Hrej | Hne | ring0 last_slot sps last_iters c Hring'].
  - repeat split; auto. by intros ->.
  - simpl. rewrite dict_append_insert. repeat split; auto. discriminate.
  - rewrite Hring in Hring'. injection Hring' as ->.
    simpl. repeat split; auto; [by eexists | done].
Qed.

(** X4. A bundle whose challenge-chain or reward-chain slot proof does not
    verify is rejected outright: on a ring of the declared shape, with the
    constants set, [new_finished_sub_slot] returns False and the store,
    caches included, is as before. *)
Theorem new_finished_sub_slot_rejects_invalid_proof
    fuel eos sub_blocks peak st ring c :
  finished_sub_slots (self st) = Some ring →
  Forall declared_shape ring →
  constants (self st) = Some c →
  (is_valid (challenge_chain_slot_proof (proofs eos)) c (cc_vdf_info eos)
   = false
   ∨ is_valid (reward_chain_slot_proof (proofs eos)) c (rc_vdf_info eos)
     = false) →
  new_finished_sub_slot fuel eos sub_blocks peak st = (st, Return false).
Proof.
  intros Hring Hshape Hc Hbad. unfold new_finished_sub_slot.
  rewrite bind_stateless by auto with stateless.
  unfold attr_finished_sub_slots. rewrite Hring. simpl.
  destruct (last ring) as [e |] eqn:Hlast; [| reflexivity].
  apply last_snoc_inv in Hlast as [ring0 Hlast]. rewrite Hlast in Hshape.
  apply Forall_app in Hshape as [_ He]. apply Forall_inv in He.
  destruct e as [last_slot sps last_iters | |]; try done.
  rewrite bind_stateless by auto with stateless. simpl.
  destruct (_ =? cc_get_hash _); [| reflexivity]. simpl.
  rewrite bind_stateless by auto with stateless.
  unfold attr_constants. rewrite Hc. simpl.
  rewrite bind_stateless by apply stateless_slot_vdfs_valid.
  assert ((slot_vdfs_valid c eos st).2 = Return false) as ->; [| reflexivity].
  unfold slot_vdfs_valid. unfold cc_vdf_info, rc_vdf_info in Hbad.
  destruct Hbad as [Hcc | Hrc]; [by rewrite Hcc |].
  destruct (is_valid (challenge_chain_slot_proof _) _ _); [| reflexivity].
  by rewrite Hrc.
Qed.

(** X28. A bundle without infused challenge chain, offered for an empty slot
    after a last slot whose deficit is below the threshold, is not rejected:
    once it chains by challenge-chain and reward-chain hash and passes the
    VDF checks, [new_finished_sub_slot] raises AttributeError on line 220;
    the store is unchanged. *)
Theorem new_finished_sub_slot_missing_icc_raises
    fuel eos sub_blocks peak st ring0 last_slot sps last_iters c :
  finished_sub_slots (self st)
  = Some (ring0 ++ [Tup3 last_slot sps last_iters]) →
  constants (self st) = Some c →
  challenge_hash (cc_vdf_info eos) = cc_get_hash (challenge_chain last_slot) →
  (slot_vdfs_valid c eos st).2 = Return true →
  total_iters peak ≤ last_iters →
  challenge_hash (rc_vdf_info eos) = rc_get_hash (reward_chain last_slot) →
  rc_deficit (reward_chain last_slot) < MIN_SUB_BLOCKS_PER_CHALLENGE_BLOCK c →
  infused_challenge_chain eos = None →
  new_finished_sub_slot fuel eos sub_blocks peak st
  = (st, Raise AttributeError).
Proof.
  intros Hring Hc Hchain Hvalid Hpeak Hrc Hdef Hicc.
  rewrite (new_finished_sub_slot_after_validation _ _ _ _ _ _ _ _ _ _
             Hring Hc Hchain Hvalid).
  assert ((total_iters peak >? last_iters) = false) as -> by lia.
  unfold bind at 1. unfold empty_slot_checks. unfold rc_vdf_info in Hrc.
  apply Z.eqb_eq in Hrc. rewrite Hrc. simpl.
  assert ((rc_deficit (reward_chain last_slot)
           <? MIN_SUB_BLOCKS_PER_CHALLENGE_BLOCK c) = true) as -> by lia.
  by rewrite Hicc.
Qed.

(** X29. When the peak lies in the bundle's slot, has a deficit below the
    threshold and is itself a challenge sub-block, the bundle's infused
    challenge chain must start from the peak's [challenge_block_info_hash]:
    with the other checks passed, [new_finished_sub_slot] appends the bundle
    and returns True when the hashes agree, and returns False with the
    store unchanged when they differ; the sub-block map is not read. *)
Theorem new_finished_sub_slot_checks_icc_start
    fuel eos sub_blocks peak st ring0 last_slot sps last_iters c icc :
  finished_sub_slots (self st)
  = Some (ring0 ++ [Tup3 last_slot sps last_iters]) →
  constants (self st) = Some c →
  challenge_hash (cc_vdf_info eos) = cc_get_hash (challenge_chain last_slot) →
  (slot_vdfs_valid c eos st).2 = Return true →
  total_iters peak > last_iters →
  reward_infusion_new_challenge peak = challenge_hash (rc_vdf_info eos) →
  total_iters peak + number_of_iterations (rc_vdf_info eos)
  = last_iters + number_of_iterations (cc_vdf_info eos) →
  deficit peak < MIN_SUB_BLOCKS_PER_CHALLENGE_BLOCK c →
  is_challenge_sub_block peak c = true →
  infused_challenge_chain eos = Some icc →
  new_finished_sub_slot fuel eos sub_blocks peak st
  = if challenge_hash (infused_challenge_chain_end_of_slot_vdf icc)
       =? challenge_block_info_hash peak
    then (with_ring
            ((ring0 ++ [Tup3 last_slot sps last_iters])
             ++ [Tup3 eos ∅
                   (last_iters + number_of_iterations (cc_vdf_info eos))])
            st,
          Return true)
    else (st, Return false).
Proof.
  intros Hring Hc Hchain Hvalid Hpeak Hrc Hsum Hdef Hchallenge Hicc.
  rewrite (new_finished_sub_slot_after_validation _ _ _ _ _ _ _ _ _ _
             Hring Hc Hchain Hvalid).
  assert ((total_iters peak >? last_iters) = true) as -> by lia.
  assert (Hchecks : peak_in_slot_checks fuel c eos sub_blocks peak
                      (last_iters + number_of_iterations (cc_vdf_info eos)) st
                    = (st, Return
                             (challenge_hash
                                (infused_challenge_chain_end_of_slot_vdf icc)
                              =? challenge_block_info_hash peak))).
  { unfold peak_in_slot_checks. unfold rc_vdf_info in Hrc, Hsum.
    apply Z.eqb_eq in Hrc. rewrite Hrc. simpl.
    apply Z.eqb_eq in Hsum. rewrite Hsum. simpl.
    unfold deficit_check.
    assert ((deficit peak <? MIN_SUB_BLOCKS_PER_CHALLENGE_BLOCK c) = true)
      as -> by lia.
    assert (Hwalk : walk_to_challenge_start fuel c sub_blocks peak st
                    = (st, Return peak)).
    { destruct fuel; simpl; by rewrite Hchallenge, orb_true_r. }
    unfold bind at 1. rewrite Hwalk. rewrite Hchallenge.
    unfold bind at 1. cbn [ret]. by rewrite Hicc. }
  unfold bind at 1. rewrite Hchecks.
  destruct (_ =? challenge_block_info_hash peak); simpl; [| reflexivity].
  unfold bind, attr_finished_sub_slots. by rewrite Hring.
Qed.

(** The VDF checks do not read the store. *)
Lemma slot_vdfs_valid_any_store c eos st1 st2 :
  (slot_vdfs_valid c eos st1).2 = (slot_vdfs_valid c eos st2).2.
Proof.
  unfold slot_vdfs_valid.
  repeat match goal with
         | |- context [if ?b then _ else _] => destruct b
         | |- context [match ?x with _ => _ end] => destruct x
         end; reflexivity.
Qed.

(** The store after a deferral. *)
Lemma new_finished_sub_slot_deferral
    fuel eos sub_blocks peak st ring0 last_slot sps last_iters c :
  finished_sub_slots (self st)
  = Some (ring0 ++ [Tup3 last_slot sps last_iters]) →
  constants (self st) = Some c →
  challenge_hash (cc_vdf_info eos) = cc_get_hash (challenge_chain last_slot) →
  (slot_vdfs_valid c eos st).2 = Return true →
  total_iters peak > last_iters →
  challenge_hash (rc_vdf_info eos) ≠ reward_infusion_new_challenge peak →
  new_finished_sub_slot fuel eos sub_blocks peak st
  = (with_eos_cache
       (dict_append (challenge_hash (rc_vdf_info eos)) eos
          (future_eos_cache (cls st))) st,
     Return false).
Proof.
  intros Hring Hc Hchain Hvalid Hpeak Hrc.
  rewrite (new_finished_sub_slot_after_validation _ _ _ _ _ _ _ _ _ _
             Hring Hc Hchain Hvalid).
  assert ((total_iters peak >? last_iters) = true) as -> by lia.
  unfold peak_in_slot_checks. unfold rc_vdf_info in *.
  assert ((reward_infusion_new_challenge peak
           =? challenge_hash (end_of_slot_vdf (reward_chain eos))) = false)
    as -> by (apply Z.eqb_neq; congruence).
  reflexivity.
Qed.

(** X5. Deferrals are not de-duplicated: the same deferring call made twice
    returns False twice and leaves the bundle twice, at the end of the list
    cached under its reward-chain challenge. *)
Theorem new_finished_sub_slot_defers_twice
    fuel eos sub_blocks peak st ring0 last_slot sps last_iters c :
  finished_sub_slots (self st)
  = Some (ring0 ++ [Tup3 last_slot sps last_iters]) →
  constants (self st) = Some c →
  challenge_hash (cc_vdf_info eos) = cc_get_hash (challenge_chain last_slot) →
  (slot_vdfs_valid c eos st).2 = Return true →
  total_iters peak > last_iters →
  challenge_hash (rc_vdf_info eos) ≠ reward_infusion_new_challenge peak →
  ∃ st'',
    new_finished_sub_slot fuel eos sub_blocks peak
      (new_finished_sub_slot fuel eos sub_blocks peak st).1
    = (st'', Return false)
    ∧ self st'' = self st
    ∧ future_eos_cache (cls st'') !! challenge_hash (rc_vdf_info eos)
      = Some (dict_get_list (challenge_hash (rc_vdf_info eos))
                (future_eos_cache (cls st)) ++ [eos; eos]).
Proof.
  intros Hring Hc Hchain Hvalid Hpeak Hrc.
  rewrite (new_finished_sub_slot_deferral _ _ _ _ _ _ _ _ _ _
             Hring Hc Hchain Hvalid Hpeak Hrc). simpl.
  eexists. split.
  - apply (new_finished_sub_slot_deferral _ _ _ _ _ ring0 last_slot sps
             last_iters c); try done.
    rewrite <- Hvalid. apply slot_vdfs_valid_any_store.
  - split; [done |]. simpl.
    rewrite !dict_append_insert. unfold dict_get_list.
    rewrite !lookup_insert_eq. simpl. by rewrite <- app_assoc.
Qed.

(** ** The peak transition *)

(** X6. With [reorg = True] and no bundle cached under the peak's
    [reward_infusion_new_challenge], [new_peak] returns None and leaves the
    ring holding exactly [prev_sub_slot] (when given, with its total) and
    [peak_sub_slot], each with an empty table, whatever the ring held
    before; nothing else changes. *)
Theorem new_peak_reorg_seeds_ring
    fuel peak peak_sub_slot total prev prev_total sub_blocks st ring0 :
  finished_sub_slots (self st) = Some ring0 →
  dict_get_list (reward_infusion_new_challenge peak)
    (future_eos_cache (cls st)) = [] →
  (is_Some prev → is_Some prev_total) →
  new_peak fuel peak peak_sub_slot total prev prev_total true sub_blocks st
  = (with_ring
       match prev, prev_total with
       | Some p, Some pt => [Tup3 p ∅ pt; Tup3 peak_sub_slot ∅ total]
       | _, _ => [Tup3 peak_sub_slot ∅ total]
       end st,
     Return None).
Proof.
  intros Hring Hcache Htotal. unfold new_peak. unfold bind at 1. simpl.
  unfold bind at 1. rewrite new_peak_seed_eq, Hring.
  destruct prev as [p |], prev_total as [pt |]; simpl; try by rewrite Hcache.
  destruct Htotal as [? [=]]. by eexists.
Qed.

(** X7. When [prev_sub_slot] is given without its total, [new_peak] with
    [reorg = True] raises AssertionError after it has emptied the ring: the
    old ring is lost and neither sub-slot is stored. *)
Theorem new_peak_without_prev_total
    fuel peak peak_sub_slot total p sub_blocks st ring0 :
  finished_sub_slots (self st) = Some ring0 →
  new_peak fuel peak peak_sub_slot total (Some p) None true sub_blocks st
  = (with_ring [] st, Raise AssertionError).
Proof.
  intros Hring. unfold new_peak. unfold bind at 1. simpl.
  unfold bind at 1. by rewrite new_peak_seed_eq, Hring.
Qed.

Lemma new_peak_no_reorg_returns_on_empty
    peak peak_sub_slot total prev st ring total' :
  finished_sub_slots (self st) = Some ring →
  Forall declared_shape ring →
  (new_peak_no_reorg peak peak_sub_slot total prev st).2 = Return total' →
  ring = [].
Proof.
  intros Hring Hshape. unfold new_peak_no_reorg.
  do 3 (rewrite bind_stateless by auto with stateless;
        match goal with
        | |- context [match ?x with _ => _ end] => destruct x
        end; try done).
  unfold bind, attr_finished_sub_slots. rewrite Hring.
  destruct Hshape as [| e rest He _]; [done |]. by destruct e.
Qed.

(** X8. On a ring of the declared shape the pruning of lines 287-305 never
    takes effect: when [new_peak] with [reorg = False] returns at all, the
    ring was empty and the call did exactly what the same call with
    [reorg = True] does. *)
Theorem new_peak_no_reorg_is_reorg
    fuel peak peak_sub_slot total prev prev_total sub_blocks st ring st'
    result :
  finished_sub_slots (self st) = Some ring →
  Forall declared_shape ring →
  new_peak fuel peak peak_sub_slot total prev prev_total false sub_blocks st
  = (st', Return result) →
  ring = []
  ∧ new_peak fuel peak peak_sub_slot total prev prev_total true sub_blocks st
    = (st', Return result).
Proof.
  intros Hring Hshape. unfold new_peak. unfold bind at 1 3. simpl.
  destruct (new_peak_no_reorg peak peak_sub_slot total prev st)
    as [st1 o1] eqn:Hpre.
  pose proof (new_peak_no_reorg_returns_on_empty peak peak_sub_slot total prev
                st ring) as Hempty.
  rewrite Hpre in Hempty.
  eapply new_peak_no_reorg_declared in Hpre as [-> Htotal]; [| done..].
  destruct o1 as [total1 | |]; try done.
  rewrite (Htotal total1 eq_refl). eauto.
Qed.

(** X9. With [reorg = False], a zero [NUM_CHECKPOINTS_PER_SLOT], or a
    sub-slot shorter than the number of checkpoints (checkpoint size zero),
    makes [new_peak] raise ZeroDivisionError before it reads or changes the
    ring. *)
Theorem new_peak_no_reorg_zero_division
    fuel peak peak_sub_slot total prev prev_total sub_blocks st c :
  constants (self st) = Some c →
  (NUM_CHECKPOINTS_PER_SLOT c = 0
   ∨ calculate_sub_slot_iters c (ips peak) / NUM_CHECKPOINTS_PER_SLOT c = 0) →
  new_peak fuel peak peak_sub_slot total prev prev_total false sub_blocks st
  = (st, Raise ZeroDivisionError).
Proof.
  intros Hc Hzero. unfold new_peak. unfold bind at 1. simpl.
  unfold new_peak_no_reorg. unfold bind at 1. unfold attr_constants.
  rewrite Hc. unfold bind at 1. unfold py_floordiv at 1.
  destruct (NUM_CHECKPOINTS_PER_SLOT c =? 0) eqn:Hnum; [reflexivity |].
  destruct Hzero as [Hz | Hz]; [lia |].
  simpl. unfold bind at 1. unfold py_floordiv. by rewrite Hz.
Qed.

(** ** Signage points in the states the store reaches *)

Lemma fresh_is_declared ring : Forall fresh_shape ring → Forall declared_shape ring.
Proof. intros H. eapply Forall_impl; [exact H |]. by intros []. Qed.

Lemma ring_fresh_new_peak
    fuel peak peak_sub_slot total prev prev_total reorg sub_blocks st :
  ring_fresh st →
  ring_fresh
    (new_peak fuel peak peak_sub_slot total prev prev_total reorg sub_blocks
       st).1.
Proof.
  intros Hfresh. pose proof Hfresh as (ring & Hring & Hshape).
  apply fresh_is_declared in Hshape.
  unfold new_peak. unfold bind at 1.
  match goal with
  | |- context [match ?m st with _ => _ end] =>
      assert (Hpre : (m st).1 = st);
      [ destruct reorg; simpl; [done |];
        destruct (new_peak_no_reorg peak peak_sub_slot total prev st)
          as [st1 o1] eqn:Hpre;
        by eapply new_peak_no_reorg_declared in Hpre as [-> _] |];
      destruct (m st) as [st1 [total1 | e |]]
  end; simpl in Hpre; subst st1; try done.
  unfold bind at 1. rewrite new_peak_seed_eq, Hring.
  destruct prev as [p |], prev_total as [pt |]; simpl;
    try (apply ring_fresh_new_peak_replay; eexists; split; [reflexivity |];
         by repeat constructor).
  by exists [].
Qed.

Lemma ring_fresh_run c st : ring_fresh st → ring_fresh (run c st).
Proof.
  intros Hfresh. pose proof Hfresh as (ring & Hring & Hshape).
  destruct c; simpl; try done.
  - by apply ring_fresh_new_finished_sub_slot.
  - erewrite new_signage_point_declared_state;
      [done | done | by apply fresh_is_declared].
  - by apply ring_fresh_new_peak.
  - unfold clear_slots, bind, attr_finished_sub_slots. rewrite Hring.
    by exists [].
  - unfold get_sub_slot.
    rewrite stateless_bind; [done | auto with stateless |].
    intros ?. apply stateless_get_sub_slot_from.
  - unfold get_signage_point_by_index.
    rewrite stateless_bind; [done | auto with stateless |].
    intros ?. apply stateless_get_signage_point_by_index_from.
  - by rewrite stateless_get_finished_sub_slots.
Qed.

Lemma seeded_ring_fresh st : seeded st → ring_fresh st.
Proof.
  induction 1 as [st0 fuel peak peak_sub_slot total prev prev_total reorg
                    sub_blocks result Hret | st c _ IH].
  - destruct (new_peak fuel peak peak_sub_slot total prev prev_total reorg
                sub_blocks st0) as [st' o] eqn:Hrun.
    simpl in *. subst o. by eapply new_peak_returns_fresh_ring.
  - by apply ring_fresh_run.
Qed.

(** X10. No signage point outlives a peak transition, and none is ever
    added: in every state that follows a [new_peak] call that returned, by
    any sequence of calls, the ring exists and each of its elements is a
    3-tuple whose signage-point table is the empty dictionary. *)
Theorem seeded_tables_are_empty st :
  seeded st →
  ∃ ring,
    finished_sub_slots (self st) = Some ring
    ∧ ∀ e, e ∈ ring → ∃ sub_slot total, e = Tup3 sub_slot ∅ total.
Proof.
  intros Hseeded. apply seeded_ring_fresh in Hseeded as (ring & Hring & Hshape).
  exists ring. split; [done |].
  intros e He. rewrite Forall_forall in Hshape. specialize (Hshape e He).
  destruct e as [s sps t | |]; try done. simpl in Hshape. subst. eauto.
Qed.

Lemma get_signage_point_by_index_from_fresh challenge index last ring st :
  Forall fresh_shape ring →
  index ≠ 0 →
  get_signage_point_by_index_from challenge index last ring st
  = (st, Return None).
Proof.
  intros Hshape Hindex.
  induction Hshape as [| e rest He _ IH]; [reflexivity |].
  destruct e as [s sps t | |]; try done. simpl in He. subst sps.
  cbn [get_signage_point_by_index_from unpack3]. unfold bind at 1.
  cbn [ret]. destruct (challenge_chain_hash s =? challenge); [| done].
  apply Z.eqb_neq in Hindex. by rewrite Hindex.
Qed.

(** X11. In every state that follows a [new_peak] call that returned,
    [get_signage_point_by_index] with an index other than 0 answers None,
    for every challenge hash and every infusion: no signage point can be
    looked up. *)
Theorem seeded_signage_point_lookup_is_none
    st challenge index last_rc_infusion :
  seeded st →
  index ≠ 0 →
  get_signage_point_by_index challenge index last_rc_infusion st
  = (st, Return None).
Proof.
  intros Hseeded Hindex.
  apply seeded_ring_fresh in Hseeded as (ring & Hring & Hshape).
  unfold get_signage_point_by_index, bind, attr_finished_sub_slots.
  rewrite Hring. by apply get_signage_point_by_index_from_fresh.
Qed.

(** X12. In every state that follows a [new_peak] call that returned,
    [new_signage_point] never returns True and never changes the store:
    it returns False when the ring is empty and raises otherwise (or fails
    its assertion). *)
Theorem seeded_new_signage_point_stores_nothing
    st challenge index vdf_info_cc proof_cc vdf_info_rc proof_rc :
  seeded st →
  (new_signage_point challenge index vdf_info_cc proof_cc vdf_info_rc
     proof_rc st).1 = st
  ∧ (new_signage_point challenge index vdf_info_cc proof_cc vdf_info_rc
       proof_rc st).2 ≠ Return true.
Proof.
  intros Hseeded.
  apply seeded_ring_fresh in Hseeded as (ring & Hring & Hshape).
  apply fresh_is_declared in Hshape. split.
  - by eapply new_signage_point_declared_state.
  - unfold new_signage_point.
    rewrite bind_stateless by stateless_tac.
    match goal with |- context [match ?x with _ => _ end] => destruct x end;
      try done.
    unfold bind, attr_finished_sub_slots. rewrite Hring.
    destruct Hshape as [| e rest He _]; [done |]. by destruct e.
Qed.

(** X13. The index of a signage point is checked first: an index that is not
    positive, or not below [NUM_CHECKPOINTS_PER_SLOT], makes
    [new_signage_point] raise AssertionError with the store unchanged,
    whatever the ring holds. *)
Theorem new_signage_point_index_out_of_bounds
    st challenge index vdf_info_cc proof_cc vdf_info_rc proof_rc :
  (index ≤ 0
   ∨ ∃ c, constants (self st) = Some c ∧ NUM_CHECKPOINTS_PER_SLOT c ≤ index) →
  new_signage_point challenge index vdf_info_cc proof_cc vdf_info_rc proof_rc
    st
  = (st, Raise AssertionError).
Proof.
  intros Hbound. unfold new_signage_point. unfold bind at 1.
  destruct (0 <? index) eqn:Hpos; simpl; [| reflexivity].
  destruct Hbound as [Hle | (c & Hc & Hge)]; [lia |].
  unfold bind at 1. unfold attr_constants. rewrite Hc.
  by assert ((index <? NUM_CHECKPOINTS_PER_SLOT c) = false) as -> by lia.
Qed.

(** ** A store without a ring *)

Lemma new_peak_unset_ring
    fuel peak peak_sub_slot total prev prev_total reorg sub_blocks st :
  finished_sub_slots (self st) = None →
  ∃ e, new_peak fuel peak peak_sub_slot total prev prev_total reorg
         sub_blocks st = (st, Raise e).
Proof.
  intros Hring. unfold new_peak. unfold bind at 1.
  destruct reorg; simpl.
  - unfold bind at 1. rewrite new_peak_seed_eq, Hring. eauto.
  - unfold new_peak_no_reorg. unfold bind at 1. unfold attr_constants.
    destruct (constants (self st)) as [c |]; [| eauto].
    unfold bind at 1. unfold py_floordiv at 1.
    destruct (NUM_CHECKPOINTS_PER_SLOT c =? 0); [eauto |]. simpl.
    unfold bind at 1. unfold py_floordiv.
    destruct (_ =? 0); [eauto |]. simpl.
    unfold bind at 1. unfold attr_finished_sub_slots. rewrite Hring. eauto.
Qed.

(** X14. No method creates the ring.  On a store whose [finished_sub_slots]
    was never assigned, the attribute is still unassigned after any call,
    and [new_peak], the method that seeds the ring, never returns: it
    raises with the store unchanged. *)
Theorem unset_ring_stays_unset st :
  finished_sub_slots (self st) = None →
  (∀ c, finished_sub_slots (self (run c st)) = None)
  ∧ ∀ fuel peak peak_sub_slot total prev prev_total reorg sub_blocks,
      ∃ e, new_peak fuel peak peak_sub_slot total prev prev_total reorg
             sub_blocks st = (st, Raise e).
Proof.
  intros Hring. split; [| intros; by apply new_peak_unset_ring].
  intros c. destruct c; simpl; try done.
  - unfold new_finished_sub_slot, bind, attr_finished_sub_slots.
    by rewrite Hring.
  - unfold new_signage_point. rewrite bind_stateless by stateless_tac.
    match goal with |- context [match ?x with _ => _ end] => destruct x end;
      try done.
    unfold bind, attr_finished_sub_slots. by rewrite Hring.
  - destruct (new_peak_unset_ring fuel peak peak_sub_slot total prev_sub_slot
                prev_sub_slot_total_iters reorg sub_blocks st Hring)
      as [e ->].
    done.
  - unfold clear_slots, bind, attr_finished_sub_slots. by rewrite Hring.
  - unfold get_sub_slot.
    rewrite stateless_bind; [done | auto with stateless |].
    intros ?. apply stateless_get_sub_slot_from.
  - unfold get_signage_point_by_index.
    rewrite stateless_bind; [done | auto with stateless |].
    intros ?. apply stateless_get_signage_point_by_index_from.
  - by rewrite stateless_get_finished_sub_slots.
Qed.

(** ** Looking a sub-slot up *)

Lemma get_sub_slot_from_first_match challenge ring :
  Forall declared_shape ring →
  ∀ base st,
    ∃ r,
      get_sub_slot_from challenge base ring st = (st, Return r)
      ∧ (r = None
         ∧ (∀ e, e ∈ ring →
                 cc_get_hash (challenge_chain (entry_sub_slot e)) ≠ challenge)
         ∨ ∃ (i : nat) sub_slot sps total,
             r = Some (sub_slot, base + Z.of_nat i, total)
             ∧ ring !! i = Some (Tup3 sub_slot sps total)
             ∧ cc_get_hash (challenge_chain sub_slot) = challenge
             ∧ ∀ (j : nat) e,
                 (j < i)%nat → ring !! j = Some e →
                 cc_get_hash (challenge_chain (entry_sub_slot e))
                 ≠ challenge).
Proof.
  induction 1 as [| e rest He _ IH]; intros base st.
  - exists None. split; [reflexivity |]. left. split; [done |].
    intros e He. by apply elem_of_nil in He.
  - destruct e as [s sps t | |]; try done.
    cbn [get_sub_slot_from unpack3]. unfold bind at 1. cbn [ret].
    destruct (cc_get_hash (challenge_chain s) =? challenge) eqn:Hs.
    + apply Z.eqb_eq in Hs. eexists. split; [reflexivity |]. right.
      exists 0%nat, s, sps, t. rewrite Z.add_0_r.
      repeat split; [done |]. intros j e Hj. lia.
    + apply Z.eqb_neq in Hs.
      destruct (IH (base + 1) st) as (r & Hrun & Hr).
      exists r. split; [done |].
      destruct Hr as [[-> Hnone] | (i & s' & sps' & t' & -> & Hi & Hm & Hbefore)].
      * left. split; [done |]. intros e He'.
        apply elem_of_cons in He' as [-> | He']; [done | by apply Hnone].
      * right. exists (S i), s', sps', t'.
        replace (base + Z.of_nat (S i)) with (base + 1 + Z.of_nat i) by lia.
        repeat split; [done | done |].
        intros [| j] e Hj Hlook; simpl in Hlook.
        -- by injection Hlook as <-.
        -- apply (Hbefore j e); [lia | done].
Qed.

(** X15. On a ring of the declared shape [get_sub_slot] finds the first
    element whose challenge-chain hash is the one asked for and answers its
    bundle, its position in the ring and its total; it answers None exactly
    when no element has that hash.  The store is unchanged. *)
Theorem get_sub_slot_first_match st ring challenge :
  finished_sub_slots (self st) = Some ring →
  Forall declared_shape ring →
  ∃ r,
    get_sub_slot challenge st = (st, Return r)
    ∧ (r = None
       ∧ (∀ e, e ∈ ring →
               cc_get_hash (challenge_chain (entry_sub_slot e)) ≠ challenge)
       ∨ ∃ (i : nat) sub_slot sps total,
           r = Some (sub_slot, Z.of_nat i, total)
           ∧ ring !! i = Some (Tup3 sub_slot sps total)
           ∧ cc_get_hash (challenge_chain sub_slot) = challenge
           ∧ ∀ (j : nat) e,
               (j < i)%nat → ring !! j = Some e →
               cc_get_hash (challenge_chain (entry_sub_slot e)) ≠ challenge).
Proof.
  intros Hring Hshape.
  unfold get_sub_slot, bind, attr_finished_sub_slots. rewrite Hring.
  apply (get_sub_slot_from_first_match challenge ring Hshape 0 st).
Qed.

(** ** Looking a signage point up *)

Lemma find_by_rc_infusion_sound last_rc_infusion sps st sp :
  (find_by_rc_infusion last_rc_infusion sps st).2 = Return (Some sp) →
  sp ∈ sps
  ∧ ∃ v, rc_vdf sp = Some v ∧ challenge_hash v = last_rc_infusion.
Proof.
  induction sps as [| x rest IH]; [done |]. simpl.
  destruct (rc_vdf x) as [v |] eqn:Hv; [| done].
  destruct (challenge_hash v =? last_rc_infusion) eqn:Heq.
  - intros [= <-]. apply Z.eqb_eq in Heq.
    split; [apply list_elem_of_here | eauto].
  - intros H. destruct (IH H) as [Hin Hsp].
    split; [by apply list_elem_of_further | done].
Qed.

(** X16. A signage point that [get_signage_point_by_index] answers for an
    index other than 0 is stored at that index in the table of a ring
    element whose [challenge_chain_hash] is the hash asked for, and its
    reward-chain VDF starts from the infusion asked for. *)
Theorem get_signage_point_by_index_sound
    st ring challenge index last_rc_infusion sp :
  finished_sub_slots (self st) = Some ring →
  index ≠ 0 →
  (get_signage_point_by_index challenge index last_rc_infusion st).2
  = Return (Some sp) →
  ∃ sub_slot sps total sps_at_index v,
    Tup3 sub_slot sps total ∈ ring
    ∧ challenge_chain_hash sub_slot = challenge
    ∧ sps !! index = Some sps_at_index
    ∧ sp ∈ sps_at_index
    ∧ rc_vdf sp = Some v
    ∧ challenge_hash v = last_rc_infusion.
Proof.
  intros Hring Hindex.
  unfold get_signage_point_by_index, bind, attr_finished_sub_slots.
  rewrite Hring. clear Hring.
  induction ring as [| e rest IH]; [done |].
  destruct e as [s sps t | |]; try done.
  cbn [get_signage_point_by_index_from unpack3]. unfold bind at 1. cbn [ret].
  destruct (challenge_chain_hash s =? challenge) eqn:Hs.
  - apply Z.eqb_eq in Hs. apply Z.eqb_neq in Hindex. rewrite Hindex.
    destruct (sps !! index) as [l |] eqn:Hl; [| done].
    intros Hfind. apply find_by_rc_infusion_sound in Hfind as (Hin & v & Hv & Hc).
    exists s, sps, t, l, v. repeat split; try done. apply list_elem_of_here.
  - intros H. destruct (IH H) as (s' & sps' & t' & l & v & Hin & Hrest).
    exists s', sps', t', l, v. split; [by apply list_elem_of_further | done].
Qed.

(** ** Walking back to the start of the sub-slot *)

Lemma walk_to_first_in_sub_slot_ends recs curr n o :
  walk_ends recs curr n o →
  ∀ (fuel : nat) st,
    (n ≤ fuel)%nat →
    walk_to_first_in_sub_slot fuel recs curr st = (st, o).
Proof.
  induction 1 as [curr Hfirst | curr Hfirst Hmiss
                 | curr parent n o Hfirst Hparent _ IH];
    intros fuel st Hfuel.
  - destruct fuel; simpl; by rewrite Hfirst.
  - destruct fuel as [| fuel]; [lia |]. simpl. by rewrite Hfirst, Hmiss.
  - destruct fuel as [| fuel]; [lia |]. simpl. rewrite Hfirst, Hparent.
    apply IH. lia.
Qed.

(** X17. Enough fuel gives the result of the loop of lines 335-336.  When the
    walk from [prev_sb] ends after [n] steps, then with [n] units of fuel or
    more, on a ring of the declared shape, [get_finished_sub_slots] raises
    KeyError if the walk met a parent hash that the map lacks, IndexError if
    the ancestor it reached has finished no challenge slot, and otherwise
    gets as far as the ring and raises ValueError.  The store is
    unchanged. *)
Theorem get_finished_sub_slots_walk
    fuel prev_sb recs pos extra st ring n o :
  finished_sub_slots (self st) = Some ring →
  Forall declared_shape ring →
  walk_ends recs prev_sb n o →
  (n ≤ fuel)%nat →
  get_finished_sub_slots fuel (Some prev_sb) recs pos extra st
  = (st, match o with
         | Return target =>
             match finished_challenge_slot_hashes target with
             | [] => Raise IndexError
             | _ :: _ => Raise ValueError
             end
         | Raise e => Raise e
         | Diverge => Diverge
         end).
Proof.
  intros Hring Hshape Hends Hfuel. unfold get_finished_sub_slots.
  unfold bind at 1. unfold bind at 1.
  rewrite (walk_to_first_in_sub_slot_ends recs prev_sb n o Hends fuel st Hfuel).
  destruct o as [target | e |]; try reflexivity.
  unfold py_last.
  destruct (last (finished_challenge_slot_hashes target)) as [h |] eqn:Hlast.
  - destruct (finished_challenge_slot_hashes target); [done |].
    unfold ret. unfold bind at 1. unfold attr_finished_sub_slots.
    rewrite Hring. destruct Hshape as [| e rest He _]; [done |].
    by destruct e.
  - apply last_None in Hlast. by rewrite Hlast.
Qed.

Lemma walk_to_first_in_sub_slot_self_parent fuel recs sb st :
  first_in_sub_slot sb = false →
  recs !! prev_hash sb = Some sb →
  walk_to_first_in_sub_slot fuel recs sb st = (st, Diverge).
Proof.
  intros Hfirst Hself. induction fuel as [| fuel IH]; simpl;
    rewrite Hfirst; [reflexivity |]. by rewrite Hself.
Qed.

(** X18. A record that is not first in its sub-slot and that the map gives
    as its own parent makes the loop of lines 335-336 run for ever:
    [get_finished_sub_slots] does not end, whatever the fuel. *)
Theorem get_finished_sub_slots_self_parent
    fuel prev_sb recs pos extra st :
  first_in_sub_slot prev_sb = false →
  recs !! prev_hash prev_sb = Some prev_sb →
  get_finished_sub_slots fuel (Some prev_sb) recs pos extra st = (st, Diverge).
Proof.
  intros Hfirst Hself. unfold get_finished_sub_slots.
  unfold bind at 1. unfold bind at 1.
  by rewrite walk_to_first_in_sub_slot_self_parent.
Qed.

(** ** The future caches *)

(** X19. What [add_to_future_ip] puts aside, [get_future_ip] gives back in
    arrival order: after the call the list under the infusion point's
    reward-chain challenge is the old list followed by the new item, the
    lists under other keys are as before, and the instance and the three
    other caches are untouched. *)
Theorem add_to_future_ip_then_get st infusion_point rc_challenge_hash :
  let key := challenge_hash (ip_reward_chain_ip_vdf infusion_point) in
  let st' := (add_to_future_ip infusion_point st).1 in
  (get_future_ip rc_challenge_hash st').2
  = Return (if decide (rc_challenge_hash = key)
            then dict_get_list key (future_ip_cache (cls st))
                 ++ [infusion_point]
            else dict_get_list rc_challenge_hash (future_ip_cache (cls st)))
  ∧ self st' = self st
  ∧ future_eos_cache (cls st') = future_eos_cache (cls st)
  ∧ future_sp_cache (cls st') = future_sp_cache (cls st)
  ∧ future_sb_cache (cls st') = future_sb_cache (cls st).
Proof.
  simpl. repeat split. f_equal. rewrite dict_append_insert.
  unfold dict_get_list at 1. destruct (decide _) as [-> | Hne].
  - by rewrite lookup_insert_eq.
  - by rewrite lookup_insert_ne.
Qed.

(** X20. What [add_to_future_sb] puts aside, [get_future_sb] gives back in
    arrival order: after the call the list under the block's reward-chain
    challenge is the old list followed by the new block, the lists under
    other keys are as before, and the instance and the three other caches
    are untouched. *)
Theorem add_to_future_sb_then_get st sub_block rc_challenge_hash :
  let key := challenge_hash
               (reward_chain_ip_vdf (reward_chain_sub_block sub_block)) in
  let st' := (add_to_future_sb sub_block st).1 in
  (get_future_sb rc_challenge_hash st').2
  = Return (if decide (rc_challenge_hash = key)
            then dict_get_list key (future_sb_cache (cls st)) ++ [sub_block]
            else dict_get_list rc_challenge_hash (future_sb_cache (cls st)))
  ∧ self st' = self st
  ∧ future_eos_cache (cls st') = future_eos_cache (cls st)
  ∧ future_sp_cache (cls st') = future_sp_cache (cls st)
  ∧ future_ip_cache (cls st') = future_ip_cache (cls st).
Proof.
  simpl. repeat split. f_equal. rewrite dict_append_insert.
  unfold dict_get_list at 1. destruct (decide _) as [-> | Hne].
  - by rewrite lookup_insert_eq.
  - by rewrite lookup_insert_ne.
Qed.

(** ** The block tables *)

Section TableProperties.
Context {hashes : BlockHashes}.

Lemma set_disconnected_blocks_same st d :
  disconnected_blocks (self st) = Some d →
  (set_disconnected_blocks d st).1 = st.
Proof.
  destruct st as [k [c cb su db ub ring]]. simpl. by intros ->.
Qed.

(** The loop of lines 74-76 over any duplicate-free list of keys of the
    table: it removes the listed blocks below the height and keeps the
    rest. *)
Lemma clear_disconnected_blocks_below_from_spec below keys :
  ∀ st d,
    disconnected_blocks (self st) = Some d →
    NoDup keys →
    (∀ k, k ∈ keys → is_Some (d !! k)) →
    ∃ d',
      clear_disconnected_blocks_below_from below keys st
      = ((set_disconnected_blocks d' st).1, Return tt)
      ∧ ∀ k, d' !! k
             = match d !! k with
               | Some b =>
                   if bool_decide (k ∈ keys) && (height b <? below)
                   then None else Some b
               | None => None
               end.
Proof.
  induction keys as [| key rest IH]; intros st d Hd Hnodup Hkeys.
  - exists d. split.
    + cbn [clear_disconnected_blocks_below_from]. unfold ret.
      by rewrite set_disconnected_blocks_same.
    + intros k. by destruct (d !! k).
  - apply NoDup_cons in Hnodup as [Hfresh Hnodup].
    destruct (Hkeys key) as [b Hb]; [apply list_elem_of_here |].
    cbn [clear_disconnected_blocks_below_from].
    unfold bind at 1. unfold attr_disconnected_blocks at 1. rewrite Hd, Hb.
    destruct (height b <? below) eqn:Hlow.
    + unfold bind at 1. cbn [set_disconnected_blocks update_instance fst snd].
      edestruct (IH (set_disconnected_blocks (delete key d) st).1
                   (delete key d)) as (d' & Hrun & Hlook);
        [reflexivity | done | |].
      { intros k Hk. rewrite lookup_delete_ne; [| by intros ->].
        apply Hkeys. by apply list_elem_of_further. }
      exists d'. split; [exact Hrun |].
      intros k. rewrite Hlook. destruct (decide (k = key)) as [-> | Hne].
      * rewrite lookup_delete_eq, Hb, Hlow.
        by rewrite bool_decide_true by apply list_elem_of_here.
      * rewrite lookup_delete_ne by done.
        destruct (d !! k); [| done].
        by rewrite (bool_decide_ext (k ∈ rest) (k ∈ key :: rest))
          by (rewrite elem_of_cons; tauto).
    + unfold bind at 1. cbn [ret].
      destruct (IH st d Hd Hnodup) as (d' & Hrun & Hlook).
      { intros k Hk. apply Hkeys. by apply list_elem_of_further. }
      exists d'. split; [done |].
      intros k. rewrite Hlook. destruct (decide (k = key)) as [-> | Hne].
      * by rewrite Hb, Hlow, !andb_false_r.
      * destruct (d !! k); [| done].
        by rewrite (bool_decide_ext (k ∈ rest) (k ∈ key :: rest))
          by (rewrite elem_of_cons; tauto).
Qed.

(** X21. [clear_disconnected_blocks_below] removes exactly the blocks whose
    height is below the bound: afterwards a header hash maps to its block
    when the block's height is at or above the bound and to nothing
    otherwise; the call returns and the rest of the store is unchanged. *)
Theorem clear_disconnected_blocks_below_filters st d below :
  disconnected_blocks (self st) = Some d →
  ∃ d',
    clear_disconnected_blocks_below below st
    = ((set_disconnected_blocks d' st).1, Return tt)
    ∧ ∀ hash, d' !! hash
              = match d !! hash with
                | Some b => if height b <? below then None else Some b
                | None => None
                end.
Proof.
  intros Hd. unfold clear_disconnected_blocks_below.
  unfold bind. unfold attr_disconnected_blocks at 1. rewrite Hd.
  destruct (clear_disconnected_blocks_below_from_spec below
              (map_to_list d).*1 st d Hd) as (d' & Hrun & Hlook).
  { apply NoDup_fst_map_to_list. }
  { intros k Hk. apply list_elem_of_fmap in Hk as ([k' b] & -> & Hin).
    apply elem_of_map_to_list in Hin. by exists b. }
  exists d'. split; [done |].
  intros k. rewrite Hlook. destruct (d !! k) as [b |] eqn:Hb; [| done].
  rewrite bool_decide_true; [done |].
  apply list_elem_of_fmap. exists (k, b). split; [done |].
  by apply elem_of_map_to_list.
Qed.

(** X22. A disconnected block is found again under its header hash, a later
    block with the same header hash replaces it, and the blocks under other
    hashes are as before. *)
Theorem add_disconnected_block_then_get st d block hash :
  disconnected_blocks (self st) = Some d →
  (get_disconnected_block hash (add_disconnected_block block st).1).2
  = Return (if decide (hash = header_hash block) then Some block
            else d !! hash).
Proof.
  intros Hd. unfold add_disconnected_block, get_disconnected_block, bind,
    attr_disconnected_blocks.
  rewrite Hd. simpl. destruct (decide _) as [-> | Hne].
  - by rewrite lookup_insert_eq.
  - by rewrite lookup_insert_ne.
Qed.

End TableProperties.

(** X23. A candidate block is found again under its quality string, a later
    candidate with the same quality string replaces it, and the candidates
    under other strings are as before. *)
Theorem add_candidate_block_then_get st d quality_string unfinished_block q :
  candidate_blocks (self st) = Some d →
  (get_candidate_block q
     (add_candidate_block quality_string unfinished_block st).1).2
  = Return (if decide (q = quality_string) then Some unfinished_block
            else d !! q).
Proof.
  intros Hd. unfold add_candidate_block, get_candidate_block, bind,
    attr_candidate_blocks.
  rewrite Hd. simpl. destruct (decide _) as [-> | Hne].
  - by rewrite lookup_insert_eq.
  - by rewrite lookup_insert_ne.
Qed.

(** X24. An unfinished block is found again under its reward hash; after
    [remove_unfinished_block] the hash maps to nothing and the other
    entries are as before; removing a hash that is not in the table
    returns without error and without change. *)
Theorem unfinished_block_add_remove st d unfinished_block hash :
  unfinished_blocks (self st) = Some d →
  (get_unfinished_block (unfinished_reward_hash unfinished_block)
     (add_unfinished_block unfinished_block st).1).2
  = Return (Some unfinished_block)
  ∧ (∀ other,
       (get_unfinished_block other (remove_unfinished_block hash st).1).2
       = Return (if decide (other = hash) then None else d !! other))
  ∧ (remove_unfinished_block hash st).2 = Return tt
  ∧ (d !! hash = None → remove_unfinished_block hash st = (st, Return tt)).
Proof.
  intros Hd. repeat split.
  - unfold add_unfinished_block, get_unfinished_block, bind,
      attr_unfinished_blocks.
    rewrite Hd. simpl. by rewrite lookup_insert_eq.
  - intros other.
    unfold remove_unfinished_block, get_unfinished_block, bind,
      attr_unfinished_blocks.
    rewrite Hd. simpl.
    destruct (bool_decide (is_Some (d !! hash))) eqn:Hin; simpl; rewrite Hd.
    + simpl. destruct (decide _) as [-> | Hne].
      * by rewrite lookup_delete_eq.
      * by rewrite lookup_delete_ne.
    + apply bool_decide_eq_false in Hin.
      destruct (decide _) as [-> | Hne]; [| done].
      simpl. f_equal. by apply eq_None_not_Some.
  - unfold remove_unfinished_block, bind, attr_unfinished_blocks.
    rewrite Hd. simpl.
    destruct (bool_decide (is_Some (d !! hash))); simpl; [| done].
    by rewrite Hd.
  - intros Hnone. unfold remove_unfinished_block, bind,
      attr_unfinished_blocks.
    rewrite Hd, Hnone. by rewrite bool_decide_false by by intros [? ?].
Qed.

(** X25. [seen_unfinished_block] answers whether the hash was seen before and
    records it: the first call answers by membership, every later call for
    that hash answers True and changes nothing, and after
    [clear_seen_unfinished_blocks] the hash is new again. *)
Theorem seen_unfinished_block_twice st seen hash :
  seen_unfinished_blocks (self st) = Some seen →
  ∃ st1,
    seen_unfinished_block hash st = (st1, Return (bool_decide (hash ∈ seen)))
    ∧ seen_unfinished_blocks (self st1) = Some (seen ∪ {[hash]})
    ∧ seen_unfinished_block hash st1 = (st1, Return true)
    ∧ (seen_unfinished_block hash (clear_seen_unfinished_blocks st1).1).2
      = Return false.
Proof.
  intros Hseen. unfold seen_unfinished_block at 1.
  unfold bind at 1. unfold attr_seen_unfinished_blocks at 1. rewrite Hseen.
  destruct (bool_decide (hash ∈ seen)) eqn:Hin.
  - apply bool_decide_eq_true in Hin. exists st.
    split; [reflexivity |]. split; [| split].
    + rewrite Hseen. f_equal. apply set_eq. intros x.
      rewrite elem_of_union, elem_of_singleton.
      split; [by left | by intros [? | ->]].
    + unfold seen_unfinished_block, bind, attr_seen_unfinished_blocks.
      rewrite Hseen. by rewrite bool_decide_true.
    + unfold clear_seen_unfinished_blocks, seen_unfinished_block, bind,
        attr_seen_unfinished_blocks.
      rewrite Hseen. simpl.
      rewrite bool_decide_false; [done | apply not_elem_of_empty].
  - unfold bind, attr_seen_unfinished_blocks. rewrite Hseen. simpl.
    eexists. split; [reflexivity |]. split; [reflexivity | split].
    + unfold seen_unfinished_block, bind, attr_seen_unfinished_blocks. simpl.
      rewrite bool_decide_true; [done |].
      apply elem_of_union_r, elem_of_singleton. reflexivity.
    + unfold clear_seen_unfinished_blocks, seen_unfinished_block, bind,
        attr_seen_unfinished_blocks.
      simpl. rewrite bool_decide_false; [done | apply not_elem_of_empty].
Qed.

Lemma tables_only_intro {A} (m : M A) :
  (∀ st, cls (m st).1 = cls st
         ∧ constants (self (m st).1) = constants (self st)
         ∧ finished_sub_slots (self (m st).1) = finished_sub_slots (self st)) →
  tables_only m.
Proof.
  intros H st. destruct (H st) as (Hcls & Hconstants & Hring).
  destruct (m st).1 as [k [c cb su db ub ring]].
  destruct st as [k0 [c0 cb0 su0 db0 ub0 ring0]]. simpl in *. subst.
  by exists cb, su, db, ub.
Qed.

Section TableFrame.
Context {hashes : BlockHashes}.

(** X26. The block-table methods touch the block tables only: whatever its
    arguments and outcome, each of them leaves the class-level caches, the
    constants and the ring as they were, so that its effect on the store is
    one that [table_method] describes. *)
Theorem table_methods_touch_tables_only :
  (∀ block, tables_only (add_disconnected_block block))
  ∧ (∀ hash, tables_only (get_disconnected_block hash))
  ∧ (∀ below, tables_only (clear_disconnected_blocks_below below))
  ∧ (∀ quality_string unfinished_block,
       tables_only (add_candidate_block quality_string unfinished_block))
  ∧ (∀ quality_string, tables_only (get_candidate_block quality_string))
  ∧ (∀ unfinished_block, tables_only (add_unfinished_block unfinished_block))
  ∧ (∀ hash, tables_only (get_unfinished_block hash))
  ∧ tables_only get_unfinished_blocks
  ∧ (∀ hash, tables_only (seen_unfinished_block hash))
  ∧ tables_only clear_seen_unfinished_blocks
  ∧ (∀ hash, tables_only (remove_unfinished_block hash)).
Proof.
  repeat split; intros; apply tables_only_intro; intros st.
  - unfold add_disconnected_block, bind, attr_disconnected_blocks.
    by destruct (disconnected_blocks (self st)).
  - unfold get_disconnected_block, bind, attr_disconnected_blocks.
    by destruct (disconnected_blocks (self st)).
  - destruct (disconnected_blocks (self st)) as [d |] eqn:Hd.
    + unfold clear_disconnected_blocks_below, bind, attr_disconnected_blocks.
      rewrite Hd.
      destruct (clear_disconnected_blocks_below_from_spec below
                  (map_to_list d).*1 st d Hd) as (d' & -> & _); [| | done].
      * apply NoDup_fst_map_to_list.
      * intros k Hk. apply list_elem_of_fmap in Hk as ([k' b] & -> & Hin).
        apply elem_of_map_to_list in Hin. by exists b.
    + unfold clear_disconnected_blocks_below, bind, attr_disconnected_blocks.
      by rewrite Hd.
  - unfold add_candidate_block, bind, attr_candidate_blocks.
    by destruct (candidate_blocks (self st)).
  - unfold get_candidate_block, bind, attr_candidate_blocks.
    by destruct (candidate_blocks (self st)).
  - unfold add_unfinished_block, bind, attr_unfinished_blocks.
    by destruct (unfinished_blocks (self st)).
  - unfold get_unfinished_block, bind, attr_unfinished_blocks.
    by destruct (unfinished_blocks (self st)).
  - unfold get_unfinished_blocks, attr_unfinished_blocks.
    by destruct (unfinished_blocks (self st)).
  - unfold seen_unfinished_block, bind, attr_seen_unfinished_blocks.
    destruct (seen_unfinished_blocks (self st)) as [s |] eqn:Hs; [| done].
    destruct (bool_decide _); [done |]. simpl. by rewrite Hs.
  - unfold clear_seen_unfinished_blocks, bind, attr_seen_unfinished_blocks.
    by destruct (seen_unfinished_blocks (self st)).
  - unfold remove_unfinished_block, bind, attr_unfinished_blocks.
    destruct (unfinished_blocks (self st)) as [d |] eqn:Hd; [| done].
    destruct (bool_decide _); [| done]. simpl. by rewrite Hd.
Qed.


End TableFrame.

End MoreProperties.

(** ** The further properties at sample inputs *)

Lemma new_finished_sub_slot_accepts_empty_slot_witness :
  new_finished_sub_slot (env := sample_env) 0 slot3 ∅ (sample_peak 250 3001)
    (store_with no_caches [Tup3 slot2 ∅ 300])
  = (store_with no_caches [Tup3 slot2 ∅ 300; Tup3 slot3 ∅ 400], Return true).
Proof.
  apply (new_finished_sub_slot_accepts_empty_slot (env := sample_env) 0 slot3
           ∅ (sample_peak 250 3001) (store_with no_caches [Tup3 slot2 ∅ 300])
           [] slot2 ∅ 300 sample_constants).
  - reflexivity.
  - reflexivity.
  - reflexivity.
  - reflexivity.
  - simpl. lia.
  - reflexivity.
  - left. simpl. lia.
Defined.

Lemma new_finished_sub_slot_accepts_peak_slot_witness :
  new_finished_sub_slot (env := sample_env) 0 cached_eos ∅
    (sample_peak 350 3001) (store_with no_caches [Tup3 slot2 ∅ 300])
  = (store_with no_caches [Tup3 slot2 ∅ 300; Tup3 cached_eos ∅ 400],
     Return true).
Proof.
  apply (new_finished_sub_slot_accepts_peak_slot (env := sample_env) 0
           cached_eos ∅ (sample_peak 350 3001)
           (store_with no_caches [Tup3 slot2 ∅ 300]) [] slot2 ∅ 300
           sample_constants).
  - reflexivity.
  - reflexivity.
  - reflexivity.
  - reflexivity.
  - simpl. lia.
  - reflexivity.
  - reflexivity.
  - simpl. lia.
Defined.

Lemma new_finished_sub_slot_frame_witness :
  ∃ t,
    self (store_with no_caches [Tup3 slot2 ∅ 300; Tup3 slot3 ∅ 400])
    = self (with_ring ([Tup3 slot2 ∅ 300] ++ [Tup3 slot3 ∅ t])
              (store_with no_caches [Tup3 slot2 ∅ 300])).
Proof.
  apply (new_finished_sub_slot_frame (env := sample_env) 0 slot3 ∅
           (sample_peak 250 3001) (store_with no_caches [Tup3 slot2 ∅ 300])
           [Tup3 slot2 ∅ 300]
           (store_with no_caches [Tup3 slot2 ∅ 300; Tup3 slot3 ∅ 400])
           (Return true)).
  - reflexivity.
  - reflexivity.
  - reflexivity.
Defined.

Lemma new_finished_sub_slot_rejects_invalid_proof_witness :
  new_finished_sub_slot (env := sample_env) 0 forged_eos ∅
    (sample_peak 250 3001) (store_with no_caches [Tup3 slot2 ∅ 300])
  = (store_with no_caches [Tup3 slot2 ∅ 300], Return false).
Proof.
  apply (new_finished_sub_slot_rejects_invalid_proof (env := sample_env) 0
           forged_eos ∅ (sample_peak 250 3001)
           (store_with no_caches [Tup3 slot2 ∅ 300]) [Tup3 slot2 ∅ 300]
           sample_constants).
  - reflexivity.
  - repeat constructor.
  - reflexivity.
  - left. reflexivity.
Defined.

Lemma new_finished_sub_slot_defers_twice_witness :
  ∃ st'',
    new_finished_sub_slot (env := sample_env) 0 deferred_eos ∅
      (sample_peak 350 3001)
      (new_finished_sub_slot (env := sample_env) 0 deferred_eos ∅
         (sample_peak 350 3001) (store_with no_caches [Tup3 slot2 ∅ 300])).1
    = (st'', Return false)
    ∧ self st'' = self (store_with no_caches [Tup3 slot2 ∅ 300])
    ∧ future_eos_cache (cls st'') !! 3777
      = Some (dict_get_list 3777 ∅ ++ [deferred_eos; deferred_eos]).
Proof.
  apply (new_finished_sub_slot_defers_twice (env := sample_env) 0 deferred_eos
           ∅ (sample_peak 350 3001) (store_with no_caches [Tup3 slot2 ∅ 300])
           [] slot2 ∅ 300 sample_constants).
  - reflexivity.
  - reflexivity.
  - reflexivity.
  - reflexivity.
  - simpl. lia.
  - simpl. lia.
Defined.

Lemma new_peak_reorg_seeds_ring_witness :
  new_peak (env := sample_env) 0 (sample_peak 350 3001) slot2 300 (Some slot1)
    (Some 200) true ∅ (store_with no_caches ring_0_to_4)
  = (store_with no_caches [Tup3 slot1 ∅ 200; Tup3 slot2 ∅ 300], Return None).
Proof.
  apply (new_peak_reorg_seeds_ring (env := sample_env) 0
           (sample_peak 350 3001) slot2 300 (Some slot1) (Some 200) ∅
           (store_with no_caches ring_0_to_4) ring_0_to_4).
  - reflexivity.
  - reflexivity.
  - intros _. by exists 200.
Defined.

Lemma new_peak_without_prev_total_witness :
  new_peak (env := sample_env) 0 (sample_peak 350 3001) slot2 300 (Some slot1)
    None true ∅ (store_with no_caches ring_0_to_4)
  = (store_with no_caches [], Raise AssertionError).
Proof.
  apply (new_peak_without_prev_total (env := sample_env) 0
           (sample_peak 350 3001) slot2 300 slot1 ∅
           (store_with no_caches ring_0_to_4) ring_0_to_4).
  reflexivity.
Defined.

Lemma new_peak_no_reorg_is_reorg_witness :
  [] = @nil ring_entry
  ∧ new_peak (env := sample_env) 0 (sample_peak 350 3001) slot2 300 None None
      true ∅ (store_with no_caches [])
    = (store_with no_caches [Tup3 slot2 ∅ 300], Return None).
Proof.
  apply (new_peak_no_reorg_is_reorg (env := sample_env) 0
           (sample_peak 350 3001) slot2 300 None None ∅
           (store_with no_caches []) []).
  - reflexivity.
  - constructor.
  - reflexivity.
Defined.

Lemma new_peak_no_reorg_zero_division_witness :
  new_peak (env := sample_env) 0 short_slot_peak slot2 300 None None false ∅
    (store_with no_caches [Tup3 slot2 ∅ 300])
  = (store_with no_caches [Tup3 slot2 ∅ 300], Raise ZeroDivisionError).
Proof.
  apply (new_peak_no_reorg_zero_division (env := sample_env) 0 short_slot_peak
           slot2 300 None None ∅ (store_with no_caches [Tup3 slot2 ∅ 300])
           sample_constants).
  - reflexivity.
  - right. reflexivity.
Defined.

Lemma seeded_tables_are_empty_witness :
  ∃ ring,
    finished_sub_slots
      (self
         (run (env := sample_env)
            (CallNewFinishedSubSlot 0 slot3 ∅ (sample_peak 250 3001))
            (new_peak (env := sample_env) 0 (sample_peak 250 3001) slot2 300
               None None false ∅
               (store_with no_caches
                  [Tup4 slot2 full_table full_table 300])).1))
    = Some ring
    ∧ ∀ e, e ∈ ring → ∃ sub_slot total, e = Tup3 sub_slot ∅ total.
Proof.
  apply (seeded_tables_are_empty (env := sample_env)).
  apply seeded_call.
  apply (seeded_new_peak (env := sample_env)
           (store_with no_caches [Tup4 slot2 full_table full_table 300]) 0
           (sample_peak 250 3001) slot2 300 None None false ∅ None).
  reflexivity.
Defined.

Lemma seeded_signage_point_lookup_is_none_witness :
  get_signage_point_by_index (env := sample_env) 1002 3 3001
    (new_peak (env := sample_env) 0 (sample_peak 250 3001) slot2 300 None None
       true ∅ (store_with no_caches [Tup3 slot2 full_dict 300])).1
  = ((new_peak (env := sample_env) 0 (sample_peak 250 3001) slot2 300 None
        None true ∅ (store_with no_caches [Tup3 slot2 full_dict 300])).1,
     Return None).
Proof.
  apply (seeded_signage_point_lookup_is_none (env := sample_env)).
  - apply (seeded_new_peak (env := sample_env)
             (store_with no_caches [Tup3 slot2 full_dict 300]) 0
             (sample_peak 250 3001) slot2 300 None None true ∅ None).
    reflexivity.
  - lia.
Defined.

Lemma seeded_new_signage_point_stores_nothing_witness :
  let st := (new_peak (env := sample_env) 0 (sample_peak 250 3001) slot2 300
               None None true ∅ (store_with no_caches [])).1 in
  (new_signage_point (env := sample_env) 1002 1 (mkVDFInfo 1002 100 7)
     (mkVDFProof 0 7) (mkVDFInfo 3002 100 7) (mkVDFProof 0 7) st).1 = st
  ∧ (new_signage_point (env := sample_env) 1002 1 (mkVDFInfo 1002 100 7)
       (mkVDFProof 0 7) (mkVDFInfo 3002 100 7) (mkVDFProof 0 7) st).2
    ≠ Return true.
Proof.
  apply (seeded_new_signage_point_stores_nothing (env := sample_env)).
  apply (seeded_new_peak (env := sample_env) (store_with no_caches []) 0
           (sample_peak 250 3001) slot2 300 None None true ∅ None).
  reflexivity.
Defined.

Lemma new_signage_point_index_out_of_bounds_witness :
  new_signage_point (env := sample_env) 1002 32 (mkVDFInfo 1002 100 7)
    (mkVDFProof 0 7) (mkVDFInfo 3002 100 7) (mkVDFProof 0 7)
    (store_with no_caches [Tup4 slot2 full_table full_table 300])
  = (store_with no_caches [Tup4 slot2 full_table full_table 300],
     Raise AssertionError).
Proof.
  apply (new_signage_point_index_out_of_bounds (env := sample_env)).
  right. exists sample_constants. split; [reflexivity | simpl; lia].
Defined.

Lemma unset_ring_stays_unset_witness :
  (∀ c, finished_sub_slots
          (self (run (env := sample_env) c store_without_ring)) = None)
  ∧ ∀ fuel peak peak_sub_slot total prev prev_total reorg sub_blocks,
      ∃ e, new_peak (env := sample_env) fuel peak peak_sub_slot total prev
             prev_total reorg sub_blocks store_without_ring
           = (store_without_ring, Raise e).
Proof.
  apply (unset_ring_stays_unset (env := sample_env) store_without_ring).
  reflexivity.
Defined.

Lemma get_sub_slot_first_match_witness :
  ∃ r,
    get_sub_slot (env := sample_env) 1002 (store_with no_caches ring_0_to_4)
    = (store_with no_caches ring_0_to_4, Return r)
    ∧ (r = None
       ∧ (∀ e, e ∈ ring_0_to_4 →
               cc_get_hash (Collaborators := sample_env)
                 (challenge_chain (entry_sub_slot e)) ≠ 1002)
       ∨ ∃ (i : nat) sub_slot sps total,
           r = Some (sub_slot, Z.of_nat i, total)
           ∧ ring_0_to_4 !! i = Some (Tup3 sub_slot sps total)
           ∧ cc_get_hash (Collaborators := sample_env)
               (challenge_chain sub_slot) = 1002
           ∧ ∀ (j : nat) e,
               (j < i)%nat → ring_0_to_4 !! j = Some e →
               cc_get_hash (Collaborators := sample_env)
                 (challenge_chain (entry_sub_slot e)) ≠ 1002).
Proof.
  apply (get_sub_slot_first_match (env := sample_env)
           (store_with no_caches ring_0_to_4) ring_0_to_4 1002).
  - reflexivity.
  - repeat constructor.
Defined.

Lemma get_signage_point_by_index_sound_witness :
  ∃ sub_slot sps total sps_at_index v,
    Tup3 sub_slot sps total ∈ [Tup3 slot1 ∅ 200; Tup3 slot2 full_dict 300]
    ∧ challenge_chain_hash (Collaborators := sample_env) sub_slot = 1002
    ∧ sps !! 3 = Some sps_at_index
    ∧ sample_sp 3 ∈ sps_at_index
    ∧ rc_vdf (sample_sp 3) = Some v
    ∧ challenge_hash v = 3001.
Proof.
  apply (get_signage_point_by_index_sound (env := sample_env)
           (store_with no_caches [Tup3 slot1 ∅ 200; Tup3 slot2 full_dict 300])
           [Tup3 slot1 ∅ 200; Tup3 slot2 full_dict 300] 1002 3 3001
           (sample_sp 3)).
  - reflexivity.
  - lia.
  - reflexivity.
Defined.

Lemma get_finished_sub_slots_walk_witness :
  get_finished_sub_slots (env := sample_env) 1 (Some child_record)
    sample_records 1003 false (store_with no_caches ring_0_to_4)
  = (store_with no_caches ring_0_to_4, Raise ValueError).
Proof.
  apply (get_finished_sub_slots_walk (env := sample_env) 1 child_record
           sample_records 1003 false (store_with no_caches ring_0_to_4)
           ring_0_to_4 1 (Return (sample_peak 250 3001))).
  - reflexivity.
  - repeat constructor.
  - apply (walk_ends_step sample_records child_record (sample_peak 250 3001)
             0 (Return (sample_peak 250 3001))).
    + reflexivity.
    + reflexivity.
    + apply walk_ends_here. reflexivity.
  - lia.
Defined.

Lemma get_finished_sub_slots_self_parent_witness :
  get_finished_sub_slots (env := sample_env) 1000 (Some looping_record)
    looping_records 1003 false (store_with no_caches ring_0_to_4)
  = (store_with no_caches ring_0_to_4, Diverge).
Proof.
  apply (get_finished_sub_slots_self_parent (env := sample_env)).
  - reflexivity.
  - reflexivity.
Defined.

Lemma clear_disconnected_blocks_below_filters_witness :
  let d : gmap Z FullBlock := {[ 5000 := sample_block; 5001 := low_block ]} in
  ∃ d',
    clear_disconnected_blocks_below 5 (store_with_tables ∅ ∅ d ∅)
    = ((set_disconnected_blocks d' (store_with_tables ∅ ∅ d ∅)).1, Return tt)
    ∧ ∀ hash, d' !! hash
              = match d !! hash with
                | Some b => if height b <? 5 then None else Some b
                | None => None
                end.
Proof.
  apply (clear_disconnected_blocks_below_filters
           (store_with_tables ∅ ∅
              {[ 5000 := sample_block; 5001 := low_block ]} ∅)).
  reflexivity.
Defined.

Lemma add_disconnected_block_then_get_witness :
  (get_disconnected_block 5001
     (add_disconnected_block (hashes := sample_hashes) low_block
        (store_with_tables ∅ ∅ {[ 5000 := sample_block ]} ∅)).1).2
  = Return (if decide (5001 = header_hash (BlockHashes := sample_hashes)
                                low_block)
            then Some low_block
            else ({[ 5000 := sample_block ]} : gmap Z FullBlock) !! 5001).
Proof.
  apply (add_disconnected_block_then_get (hashes := sample_hashes)
           (store_with_tables ∅ ∅ {[ 5000 := sample_block ]} ∅)
           {[ 5000 := sample_block ]} low_block 5001).
  reflexivity.
Defined.

Lemma add_candidate_block_then_get_witness :
  (get_candidate_block 42
     (add_candidate_block 42 sample_unfinished
        (store_with_tables ∅ ∅ ∅ ∅)).1).2
  = Return (if decide (42 = 42) then Some sample_unfinished
            else (∅ : gmap Z UnfinishedBlock) !! 42).
Proof.
  apply (add_candidate_block_then_get (store_with_tables ∅ ∅ ∅ ∅) ∅ 42
           sample_unfinished 42).
  reflexivity.
Defined.

Lemma unfinished_block_add_remove_witness :
  let d : gmap Z UnfinishedBlock := {[ 6001 := sample_unfinished ]} in
  let st := store_with_tables ∅ ∅ ∅ d in
  (get_unfinished_block (unfinished_reward_hash sample_unfinished)
     (add_unfinished_block sample_unfinished st).1).2
  = Return (Some sample_unfinished)
  ∧ (∀ other,
       (get_unfinished_block other (remove_unfinished_block 6001 st).1).2
       = Return (if decide (other = 6001) then None else d !! other))
  ∧ (remove_unfinished_block 6001 st).2 = Return tt
  ∧ (d !! 6001 = None → remove_unfinished_block 6001 st = (st, Return tt)).
Proof.
  apply (unfinished_block_add_remove
           (store_with_tables ∅ ∅ ∅ {[ 6001 := sample_unfinished ]})
           {[ 6001 := sample_unfinished ]} sample_unfinished 6001).
  reflexivity.
Defined.

Lemma seen_unfinished_block_twice_witness :
  ∃ st1,
    seen_unfinished_block 7 (store_with_tables ∅ seen_before ∅ ∅)
    = (st1, Return (bool_decide (7 ∈ seen_before)))
    ∧ seen_unfinished_blocks (self st1) = Some (seen_before ∪ {[ 7 ]})
    ∧ seen_unfinished_block 7 st1 = (st1, Return true)
    ∧ (seen_unfinished_block 7 (clear_seen_unfinished_blocks st1).1).2
      = Return false.
Proof.
  apply (seen_unfinished_block_twice (store_with_tables ∅ seen_before ∅ ∅)
           seen_before 7).
  reflexivity.
Defined.

Lemma new_finished_sub_slot_missing_icc_raises_witness :
  new_finished_sub_slot (env := sample_env) 0 slot3 ∅ (sample_peak 250 3001)
    (store_with no_caches [Tup3 deficit_slot ∅ 300])
  = (store_with no_caches [Tup3 deficit_slot ∅ 300], Raise AttributeError).
Proof.
  apply (new_finished_sub_slot_missing_icc_raises (env := sample_env) 0 slot3
           ∅ (sample_peak 250 3001)
           (store_with no_caches [Tup3 deficit_slot ∅ 300]) [] deficit_slot ∅
           300 sample_constants).
  - reflexivity.
  - reflexivity.
  - reflexivity.
  - reflexivity.
  - simpl. lia.
  - reflexivity.
  - simpl. lia.
  - reflexivity.
Defined.

Lemma new_finished_sub_slot_checks_icc_start_witness :
  new_finished_sub_slot (env := sample_env) 0 (infused_eos 7000) ∅
    challenge_peak (store_with no_caches [Tup3 slot2 ∅ 300])
  = (store_with no_caches [Tup3 slot2 ∅ 300; Tup3 (infused_eos 7000) ∅ 400],
     Return true).
Proof.
  apply (new_finished_sub_slot_checks_icc_start (env := sample_env) 0
           (infused_eos 7000) ∅ challenge_peak
           (store_with no_caches [Tup3 slot2 ∅ 300]) [] slot2 ∅ 300
           sample_constants (mkICC (mkVDFInfo 7000 40 5))).
  - reflexivity.
  - reflexivity.
  - reflexivity.
  - reflexivity.
  - simpl. lia.
  - reflexivity.
  - reflexivity.
  - simpl. lia.
  - reflexivity.
  - reflexivity.
Defined.
